(** * build_installer: configuration merging and template rendering

    A shallow embedding of [scripts/build_installer.py].

    - YAML documents are trees of [value]; a Python [dict] is an
      insertion-ordered association list with first-match lookup.
    - Exceptions are the [Raise] side of [result]; code that touches the
      disk threads a filesystem through a state-and-exception monad, so a
      raised exception keeps every write made before it.
    - The YAML parser, the Jinja2 environment, the working directory and
      the umask are external: fields of the class [External], never
      inspected.
    - Argument parsing and logging are left out: [main] takes the parsed
      [Namespace], and log lines are not part of the state. *)

From Stdlib Require Import List String Ascii Bool Arith ZArith Lia.
From Stdlib Require Import Floats.SpecFloat.
Import ListNotations.
Local Open Scope string_scope.
Local Open Scope list_scope.

(** ** Values produced by [yaml.safe_load]

    The types of the configuration mappings: scalars, lists and mappings
    with string keys. *)

Unset Elimination Schemes.
Inductive value : Type :=
| VNone
| VBool (b : bool)
| VInt (n : Z)
| VFloat (f : spec_float)
| VStr (s : string)
| VList (xs : list value)
| VDict (items : list (string * value)).
Set Elimination Schemes.

(** ** Induction over values, through lists and mappings *)

Section ValueInduction.
Variable P : value -> Prop.
Hypothesis P_none : P VNone.
Hypothesis P_bool : forall b, P (VBool b).
Hypothesis P_int : forall n, P (VInt n).
Hypothesis P_float : forall f, P (VFloat f).
Hypothesis P_str : forall s, P (VStr s).
Hypothesis P_list : forall xs, Forall P xs -> P (VList xs).
Hypothesis P_dict : forall items, Forall (fun item => P (snd item)) items -> P (VDict items).

Fixpoint value_ind (v : value) : P v :=
  match v with
  | VNone => P_none
  | VBool b => P_bool b
  | VInt n => P_int n
  | VFloat f => P_float f
  | VStr s => P_str s
  | VList xs =>
      P_list xs
        ((fix all (l : list value) : Forall P l :=
            match l with
            | [] => Forall_nil P
            | x :: l' => Forall_cons x (value_ind x) (all l')
            end) xs)
  | VDict items =>
      P_dict items
        ((fix all (l : list (string * value)) : Forall (fun item => P (snd item)) l :=
            match l with
            | [] => Forall_nil _
            | item :: l' => Forall_cons item (value_ind (snd item)) (all l')
            end) items)
  end.
End ValueInduction.

(** A [Dict[str, Any]], in insertion order. *)
Definition dict : Type := list (string * value).

Definition isinstance_dict (v : value) : bool :=
  match v with VDict _ => true | _ => false end.

(** The dictionary operations are shared by plain values and by heap
    objects, so they are generic in the type of the stored values. *)
Section DictOps.
Context {V : Type}.

(** [d.get(key)]: [None] stands for a missing key. *)
Fixpoint dict_get (key : string) (d : list (string * V)) : option V :=
  match d with
  | [] => None
  | (k, v) :: rest => if String.eqb k key then Some v else dict_get key rest
  end.

(** [key in d] *)
Definition dict_mem (key : string) (d : list (string * V)) : bool :=
  match dict_get key d with Some _ => true | None => false end.

(** [d[key] = v]: an existing key keeps its position, a new key is
    appended. *)
Fixpoint dict_set (key : string) (v : V) (d : list (string * V)) : list (string * V) :=
  match d with
  | [] => [(key, v)]
  | (k, w) :: rest =>
      if String.eqb k key then (k, v) :: rest else (k, w) :: dict_set key v rest
  end.

End DictOps.

Definition keys (d : dict) : list string := map fst d.

(** ** [deep_merge] *)

(** One iteration of [for key, value in override.items()], with the
    recursive call abstracted as [rec]. *)
Definition merge_item (rec : dict -> value -> dict)
    (merged : dict) (item : string * value) : dict :=
  let (key, value) := item in
  match dict_get key merged with
  | Some (VDict existing) =>
      if isinstance_dict value
      then dict_set key (VDict (rec existing value)) merged
      else dict_set key value merged
  | _ => dict_set key value merged
  end.

(** The recursion descends into the values of [override]; the structural
    argument is therefore the override as a [value]. *)
Fixpoint deep_merge_value (base : dict) (override : value) {struct override} : dict :=
  match override with
  | VDict items =>
      fold_left (merge_item (fun b v => deep_merge_value b v)) items base
  | _ => base
  end.

Definition deep_merge (base override : dict) : dict :=
  deep_merge_value base (VDict override).

(** The merge rule in the words of the specification, for one key: recurse
    when both sides hold a mapping, otherwise the override wins, otherwise
    the base value stays. *)
Definition merged_entry (b o : option value) : option value :=
  match b, o with
  | Some (VDict db), Some (VDict do) => Some (VDict (deep_merge db do))
  | _, Some vo => Some vo
  | _, None => b
  end.

(** Reference deep merge, written from the specification and independent
    of the loop above: every key of the base, in base order, carries the
    merged entry; the keys only the override has follow in override
    order.  It recurses on the base. *)
Definition ref_item (rec : value -> dict -> dict) (override : dict)
    (item : string * value) : string * value :=
  let (k, vb) := item in
  (k, match dict_get k override with
      | Some vo =>
          match vb, vo with
          | VDict _, VDict do => VDict (rec vb do)
          | _, _ => vo
          end
      | None => vb
      end).

Fixpoint deep_merge_ref_value (base : value) (override : dict) {struct base} : dict :=
  match base with
  | VDict items =>
      map (ref_item (fun b o => deep_merge_ref_value b o) override) items
      ++ filter (fun item : string * value => negb (dict_mem (fst item) items)) override
  | _ => override
  end.

Definition deep_merge_ref (base override : dict) : dict :=
  deep_merge_ref_value (VDict base) override.

(** ** Well-formed values: no mapping repeats a key *)

Fixpoint nodupb (l : list string) : bool :=
  match l with
  | [] => true
  | x :: rest => negb (existsb (String.eqb x) rest) && nodupb rest
  end.

Fixpoint wf_value (v : value) : bool :=
  match v with
  | VList xs => forallb wf_value xs
  | VDict items =>
      nodupb (map fst items) && forallb (fun item => wf_value (snd item)) items
  | _ => true
  end.

Definition wf_dict (d : dict) : bool := wf_value (VDict d).

(** Statements proved by induction on the override. *)
Definition merge_keeps_wf (v : value) : Prop :=
  forall b, wf_dict b = true -> wf_value v = true ->
            wf_dict (deep_merge_value b v) = true.

Definition merge_meets_ref (v : value) : Prop :=
  forall b, wf_dict b = true -> wf_value v = true ->
            deep_merge_value b v =
            match v with VDict o => deep_merge_ref b o | _ => b end.

(** The value an iteration stores under its key. *)
Definition stored_value (existing : option value) (v : value) : value :=
  match existing with
  | Some (VDict e) => if isinstance_dict v then VDict (deep_merge_value e v) else v
  | _ => v
  end.

(** ** Exceptions and results *)

Inductive exn : Type :=
| ValueError (msg : string)
| FileExistsError (msg : string)
| FileNotFoundError (msg : string)
| NotADirectoryError (msg : string)
| IsADirectoryError (msg : string)
| TypeError (msg : string)
| AttributeError (msg : string)
| RecursionError
| YAMLError (msg : string)
| TemplateError (msg : string).

Inductive result (A : Type) : Type :=
| Ok (a : A)
| Raise (e : exn).
Arguments Ok {A} a.
Arguments Raise {A} e.

(** ** Python string operations used by the script *)

Definition str_concat (a b : string) : string := String.append a b.
Infix "+++" := str_concat (at level 60, right associativity).

(** [s.endswith(suffix)] *)
Definition endswith (s suffix : string) : bool :=
  let n := String.length s in
  let m := String.length suffix in
  (m <=? n)%nat && String.eqb (substring (n - m) m s) suffix.

(** [s[:-3]]: all but the last three characters, empty when there are fewer. *)
Definition slice_to_minus3 (s : string) : string :=
  substring 0 (String.length s - 3) s.


(** [s.split("/")] *)
Fixpoint split_slash (s : string) : list string :=
  match s with
  | EmptyString => [EmptyString]
  | String c rest =>
      if Ascii.eqb c "/" then EmptyString :: split_slash rest
      else match split_slash rest with
           | first :: more => String c first :: more
           | [] => [String c EmptyString]
           end
  end.

(** [s.rfind(".")], with [None] for -1. *)
Fixpoint rfind_dot (s : string) : option nat :=
  match s with
  | EmptyString => None
  | String c rest =>
      match rfind_dot rest with
      | Some i => Some (S i)
      | None => if Ascii.eqb c "." then Some 0 else None
      end
  end.

(** ** [pathlib] paths

    A path is the list of its components, [..] included, as [pathlib]
    keeps them.  Anchors are not modelled: every path is relative to the
    working directory, as are the names a Jinja2 loader lists. *)

Definition path : Type := list string.

Fixpoint path_eqb (p q : path) : bool :=
  match p, q with
  | [], [] => true
  | a :: p', b :: q' => String.eqb a b && path_eqb p' q'
  | _, _ => false
  end.

(** [Path(s)]: empty and ["."] components vanish. *)
Definition Path (s : string) : path :=
  filter (fun c => negb (String.eqb c EmptyString) && negb (String.eqb c ".")) (split_slash s).

(** [p.name] *)
Definition name (p : path) : string := last p EmptyString.

(** [p.parent]; the parent of the empty path is itself. *)
Definition parent (p : path) : path := removelast p.

(** [p.with_name(n)], used only where [p.name] is not empty. *)
Definition with_name (p : path) (n : string) : path := removelast p ++ [n].

(** [a / b] for a relative [b]. *)
Definition joinpath (a b : path) : path := a ++ b.

(** [p.suffix]: the part of the name from its last dot, when that dot is
    neither the first nor the last character. *)
Definition suffix (p : path) : string :=
  let n := name p in
  match rfind_dot n with
  | Some i =>
      if (0 <? i)%nat && (i <? String.length n - 1)%nat
      then substring i (String.length n - i) n
      else EmptyString
  | None => EmptyString
  end.

(** [str(p)] *)
Definition path_str (p : path) : string :=
  match p with
  | [] => "."
  | _ => String.concat "/" p
  end.

(** ** Filesystem

    The disk is a tree of nodes.  A node is addressed by its location,
    the list of names from the root; a path is resolved to a location
    as the kernel does it, component by component.  Symbolic links and
    access rights are not modelled. *)

Inductive node : Type :=
| File (content : string) (mode : N)
| Dir.

Definition location : Type := list string.

Definition filesystem : Type := location -> option node.

Definition fs_update (fs : filesystem) (l : location) (n : node) : filesystem :=
  fun q => if path_eqb l q then Some n else fs q.

Inductive errno : Type := ENOENT | ENOTDIR | EEXIST | EISDIR.

(** The location one component leads to. *)
Definition enter (l : location) (c : string) : location :=
  if String.eqb c ".." then removelast l else l ++ [c].

(** Follows components that must all be directories. *)
Fixpoint walk (fs : filesystem) (l : location) (components : list string)
  : errno + location :=
  match components with
  | [] => inr l
  | c :: rest =>
      match fs (enter l c) with
      | Some Dir => walk fs (enter l c) rest
      | Some (File _ _) => inl ENOTDIR
      | None => inl ENOENT
      end
  end.

(** How a disk may change: [adds_dirs] puts directories where there was
    nothing; [grows] keeps every directory a directory and every file a
    file. *)
Definition adds_dirs (fs fs' : filesystem) : Prop :=
  forall l, fs' l = fs l \/ (fs l = None /\ fs' l = Some Dir).

Definition grows (fs fs' : filesystem) : Prop :=
  forall l,
    (fs l = Some Dir -> fs' l = Some Dir) /\
    (forall content mode, fs l = Some (File content mode) ->
                          exists content' mode', fs' l = Some (File content' mode')).

(** ** Computations on the filesystem that may raise *)

Definition IO (A : Type) : Type := filesystem -> filesystem * result A.

Definition ret {A} (a : A) : IO A := fun fs => (fs, Ok a).
Definition raise {A} (e : exn) : IO A := fun fs => (fs, Raise e).
Definition bind {A B} (c : IO A) (k : A -> IO B) : IO B :=
  fun fs =>
    match c fs with
    | (fs', Ok a) => k a fs'
    | (fs', Raise e) => (fs', Raise e)
    end.
Definition lift {A} (r : result A) : IO A := fun fs => (fs, r).
Definition get_fs : IO filesystem := fun fs => (fs, Ok fs).

Notation "x <- c ;; k" := (bind c (fun x => k))
  (at level 61, c at next level, right associativity).
Notation "c ;; k" := (bind c (fun _ => k))
  (at level 61, right associativity).

(** [for x in xs: body(x)] *)
Fixpoint for_each {A} (xs : list A) (body : A -> IO unit) : IO unit :=
  match xs with
  | [] => ret tt
  | x :: rest => body x ;; for_each rest body
  end.

(** ** The process and its external collaborators

    The working directory and the umask of the process, the YAML parser
    and the Jinja2 environment.  The loader reads the disk when it
    lists, loads or renders (includes), so these take the filesystem of
    the moment. *)
Class External : Type := {
  cwd : location;
  create_mode : N;
  safe_load : string -> result value;
  template : Type;
  loader_list_templates : filesystem -> path -> list string;
  get_template : filesystem -> path -> string -> result template;
  render : filesystem -> template -> dict -> result string
}.

(** ** [pathlib] and [os] operations on the filesystem *)

(** [repr(s)] of a string, as [unicode_repr] computes it.  A character
    of a string is a code point, here below 256.  The quote is the
    apostrophe unless the string holds an apostrophe and no double
    quote; the quote and the backslash are escaped with a backslash;
    tab, newline and carriage return are written [\t], [\n], [\r]; any
    other character that is not printable is written [\x] and two hex
    digits. *)
Definition apostrophe : ascii := ascii_of_nat 39.
Definition double_quote : ascii := ascii_of_nat 34.
Definition backslash : ascii := ascii_of_nat 92.

Fixpoint contains (c : ascii) (s : string) : bool :=
  match s with
  | EmptyString => false
  | String c' rest => Ascii.eqb c' c || contains c rest
  end.

Definition repr_quote (s : string) : ascii :=
  if contains apostrophe s && negb (contains double_quote s)
  then double_quote else apostrophe.

(** [str.isprintable] on the code points below 256: the controls, the
    no-break space and the soft hyphen are not printable. *)
Definition isprintable (n : nat) : bool :=
  (32 <=? n)%nat && negb ((127 <=? n)%nat && (n <=? 160)%nat) && negb (n =? 173)%nat.

Definition hex_digit (n : nat) : ascii :=
  if (n <? 10)%nat then ascii_of_nat (48 + n) else ascii_of_nat (87 + n).

Definition repr_char (quote c : ascii) : string :=
  let n := nat_of_ascii c in
  if Ascii.eqb c quote || Ascii.eqb c backslash
  then String backslash (String c EmptyString)
  else if (n =? 9)%nat then String backslash "t"
  else if (n =? 10)%nat then String backslash "n"
  else if (n =? 13)%nat then String backslash "r"
  else if isprintable n then String c EmptyString
  else String backslash
         (String "x" (String (hex_digit (n / 16))
                        (String (hex_digit (n mod 16)) EmptyString))).

Fixpoint repr_body (quote : ascii) (s : string) : string :=
  match s with
  | EmptyString => EmptyString
  | String c rest => repr_char quote c +++ repr_body quote rest
  end.

Definition repr (s : string) : string :=
  let quote := repr_quote s in
  String quote (repr_body quote s +++ String quote EmptyString).

(** [str(OSError(errno, strerror, filename))], with the path the call
    was given as the file name: the message ends in [repr(str(p))]. *)
Definition os_error (what : string) (p : path) : string :=
  what +++ ": " +++ repr (path_str p).

(** The [OSError] subclass Python raises for an error number. *)
Definition os_exn (e : errno) (p : path) : exn :=
  match e with
  | ENOENT => FileNotFoundError (os_error "[Errno 2] No such file or directory" p)
  | ENOTDIR => NotADirectoryError (os_error "[Errno 20] Not a directory" p)
  | EEXIST => FileExistsError (os_error "[Errno 17] File exists" p)
  | EISDIR => IsADirectoryError (os_error "[Errno 21] Is a directory" p)
  end.

Section Filesystem.
Context `{External}.

(** Where a path leads: all components but the last must be
    directories; the last need not exist. *)
Definition locate (fs : filesystem) (p : path) : errno + location :=
  match p with
  | [] => inr cwd
  | _ =>
      match walk fs cwd (removelast p) with
      | inr d => inr (enter d (last p EmptyString))
      | inl e => inl e
      end
  end.

(** The node at a path, if the path leads to one. *)
Definition stat (fs : filesystem) (p : path) : option node :=
  match locate fs p with
  | inr l => fs l
  | inl _ => None
  end.

Definition fs_exists (fs : filesystem) (p : path) : bool :=
  match stat fs p with Some _ => true | None => false end.

Definition fs_is_file (fs : filesystem) (p : path) : bool :=
  match stat fs p with Some (File _ _) => true | _ => false end.

Definition fs_is_dir (fs : filesystem) (p : path) : bool :=
  match stat fs p with Some Dir => true | _ => false end.

(** Whatever exists sits in a directory; the root and the working
    directory are directories. *)
Definition fs_wf (fs : filesystem) : Prop :=
  fs [] = Some Dir /\
  (forall l c, fs (l ++ [c]) <> None -> fs l = Some Dir) /\
  fs cwd = Some Dir.

(** [p.exists()] *)
Definition path_exists (p : path) : IO bool :=
  fun fs => (fs, Ok (fs_exists fs p)).

(** [os.mkdir(p)] *)
Definition os_mkdir (fs : filesystem) (p : path) : errno + filesystem :=
  match locate fs p with
  | inl e => inl e
  | inr l =>
      match fs l with
      | Some _ => inl EEXIST
      | None => inr (fs_update fs l Dir)
      end
  end.

(** [p.mkdir(parents=False, exist_ok=exist_ok)] *)
Definition mkdir (exist_ok : bool) (p : path) : IO unit :=
  fun fs =>
    match os_mkdir fs p with
    | inr fs' => (fs', Ok tt)
    | inl ENOENT => (fs, Raise (os_exn ENOENT p))
    | inl e =>
        if exist_ok && fs_is_dir fs p then (fs, Ok tt) else (fs, Raise (os_exn e p))
    end.

(** [p.mkdir(parents=True, exist_ok=True)]: when a parent is missing,
    first the same call on [p.parent], then [p.mkdir(exist_ok=True)].
    The components come reversed, which makes the recursion on
    [p.parent] structural. *)
Fixpoint mkdir_parents_rev (reversed : list string) : IO unit :=
  fun fs =>
    match os_mkdir fs (rev reversed) with
    | inr fs' => (fs', Ok tt)
    | inl ENOENT =>
        match reversed with
        | [] => (fs, Raise (os_exn ENOENT (rev reversed)))
        | _ :: parent_reversed =>
            (mkdir_parents_rev parent_reversed ;; mkdir true (rev reversed)) fs
        end
    | inl e =>
        if fs_is_dir fs (rev reversed) then (fs, Ok tt)
        else (fs, Raise (os_exn e (rev reversed)))
    end.

Definition mkdir_parents (p : path) : IO unit := mkdir_parents_rev (rev p).

(** Reading the text of an opened file. *)
Definition read_text (p : path) : IO string :=
  fun fs =>
    match locate fs p with
    | inl e => (fs, Raise (os_exn e p))
    | inr l =>
        match fs l with
        | Some (File content _) => (fs, Ok content)
        | Some Dir => (fs, Raise (os_exn EISDIR p))
        | None => (fs, Raise (os_exn ENOENT p))
        end
    end.

(** [p.write_text(text)]: an existing file keeps its mode, a new file
    gets [create_mode] (0o666 masked by the umask). *)
Definition write_text (p : path) (text : string) : IO unit :=
  fun fs =>
    match locate fs p with
    | inl e => (fs, Raise (os_exn e p))
    | inr l =>
        match fs l with
        | Some Dir => (fs, Raise (os_exn EISDIR p))
        | Some (File _ mode) => (fs_update fs l (File text mode), Ok tt)
        | None => (fs_update fs l (File text create_mode), Ok tt)
        end
    end.

(** [p.chmod(mode)]; directory modes are not tracked. *)
Definition chmod (p : path) (mode : N) : IO unit :=
  fun fs =>
    match locate fs p with
    | inl e => (fs, Raise (os_exn e p))
    | inr l =>
        match fs l with
        | Some (File content _) => (fs_update fs l (File content mode), Ok tt)
        | Some Dir => (fs, Ok tt)
        | None => (fs, Raise (os_exn ENOENT p))
        end
    end.

(** What any of the [mkdir] calls does: it adds directories only, keeps
    the disk well formed, and when it returns the directory is there. *)
Definition mkdir_post (p : path) (fs : filesystem) (out : filesystem * result unit)
  : Prop :=
  adds_dirs fs (fst out) /\
  (fs_wf fs -> fs_wf (fst out)) /\
  (snd out = Ok tt -> fs_is_dir (fst out) p = true).

End Filesystem.

(** ** The script *)

(** Python truth value, as used by [x or {}]. *)
Definition truthy (v : value) : bool :=
  match v with
  | VNone => false
  | VBool b => b
  | VInt n => negb (n =? 0)%Z
  | VFloat (S754_zero _) => false
  | VFloat _ => true
  | VStr s => negb (String.eqb s EmptyString)
  | VList xs => match xs with [] => false | _ => true end
  | VDict items => match items with [] => false | _ => true end
  end.

Section Script.
Context `{External}.

Definition load_yaml (p : path) : IO value :=
  text <- read_text p ;;
  document <- lift (safe_load text) ;;
  ret (if truthy document then document else VDict []).

(** A call [deep_merge(base, override)] on unchecked values: [{**base}]
    needs a mapping, [override.items()] needs a dict. *)
Definition call_deep_merge (base override : value) : result value :=
  match base with
  | VDict b =>
      match override with
      | VDict o => Ok (VDict (deep_merge b o))
      | _ => Raise (AttributeError "object has no attribute 'items'")
      end
  | _ => Raise (TypeError "object is not a mapping")
  end.

(** [{**config, "config": config}] *)
Definition context_of (config : dict) : dict :=
  dict_set "config" (VDict config) config.

Definition build_context (default_config : path) (override_config : option path)
  : IO dict :=
  config <- load_yaml default_config ;;
  config <- match override_config with
            | Some override_path =>
                overrides <- load_yaml override_path ;;
                lift (call_deep_merge config overrides)
            | None => ret config
            end ;;
  match config with
  | VDict items => ret (context_of items)
  | _ => raise (TypeError "object is not a mapping")
  end.

Definition required_sections : list string := ["app"; "installer"; "docker"].

Definition empty_configuration : exn :=
  ValueError "Configuration is empty after loading and merging YAML files.".

Definition missing_sections (missing : list string) : exn :=
  ValueError ("Missing required configuration sections: "
              +++ String.concat ", " missing).

Definition validate_config (config : dict) : result unit :=
  match config with
  | [] => Raise empty_configuration
  | _ =>
      let missing := filter (fun key => negb (dict_mem key config)) required_sections in
      match missing with
      | [] => Ok tt
      | _ => Raise (missing_sections missing)
      end
  end.

(** The relative output path of a template name. *)
Definition relative_output (template_name : string) : path :=
  let relative_output := Path (slice_to_minus3 template_name) in
  if String.eqb (name relative_output) "installer.sh"
  then with_name relative_output "homelab-install.sh"
  else relative_output.

Definition overwrite_conflict (output_path : path) : exn :=
  FileExistsError ("Refusing to overwrite existing artifact: "
                   +++ path_str output_path +++ " (use --force)").

(** The body of the [for template_name in templates] loop. *)
Definition render_template (template_dir output_dir : path) (context : dict)
    (force : bool) (template_name : string) : IO unit :=
  fs <- get_fs ;;
  template <- lift (get_template fs template_dir template_name) ;;
  let output_path := joinpath output_dir (relative_output template_name) in
  mkdir_parents (parent output_path) ;;
  present <- path_exists output_path ;;
  if present && negb force
  then raise (overwrite_conflict output_path)
  else
    fs <- get_fs ;;
    rendered <- lift (render fs template context) ;;
    write_text output_path rendered ;;
    if String.eqb (suffix output_path) ".sh"
    then chmod output_path 493
    else ret tt.

(** [env.list_templates(filter_func=lambda name: name.endswith(".j2"))] *)
Definition list_templates (fs : filesystem) (template_dir : path) : list string :=
  filter (fun name => endswith name ".j2") (loader_list_templates fs template_dir).

(** [rendered_count] only feeds the closing log line and is left out. *)
Definition render_templates (template_dir output_dir : path) (context : dict)
    (force : bool) : IO unit :=
  fs <- get_fs ;;
  let templates := list_templates fs template_dir in
  for_each templates (render_template template_dir output_dir context force).

Record Namespace : Type := {
  config : path;
  override : option path;
  templates : path;
  output_dir : path;
  force : bool;
  verbose : bool
}.

Definition main (args : Namespace) : IO Z :=
  config_found <- path_exists (config args) ;;
  if negb config_found
  then raise (FileNotFoundError ("Base configuration not found: " +++ path_str (config args)))
  else
    override_found <- match override args with
                      | Some p => path_exists p
                      | None => ret true
                      end ;;
    if negb override_found
    then raise (FileNotFoundError
                  ("Override configuration not found: "
                   +++ match override args with Some p => path_str p | None => EmptyString end))
    else
      templates_found <- path_exists (templates args) ;;
      if negb templates_found
      then raise (FileNotFoundError ("Templates directory not found: " +++ path_str (templates args)))
      else
        context <- build_context (config args) (override args) ;;
        lift (validate_config context) ;;
        render_templates (templates args) (output_dir args) context (force args) ;;
        ret 0%Z.

End Script.

(** ** Output paths and permissions, in the words of the specification *)


(** A file name with the extension [.sh]: something, then [.sh]. *)
Definition has_sh_extension (file_name : string) : Prop :=
  exists stem, stem <> EmptyString /\ file_name = stem +++ ".sh".

(** The context shows a configuration: each of its keys at top level,
    and the whole of it under ["config"], whatever it had there. *)
Definition exposes (merged context : dict) : Prop :=
  dict_get "config" context = Some (VDict merged) /\
  forall k, k <> "config" -> dict_get k context = dict_get k merged.

(** ** [deep_merge] on a heap of objects

    Dicts and lists are objects with identity; a value is a scalar or a
    reference to an object.  This is the model in which mutation and
    aliasing can be observed. *)
Module Heap.

Definition loc : Type := nat.

Inductive hvalue : Type :=
| HNone
| HBool (b : bool)
| HInt (n : Z)
| HFloat (f : spec_float)
| HStr (s : string)
| HRef (l : loc).

Inductive object : Type :=
| ODict (items : list (string * hvalue))
| OList (elems : list hvalue).

Definition heap : Type := list object.

(** A new object gets the next free location. *)
Definition alloc (h : heap) (o : object) : heap * loc := (h ++ [o], List.length h).

Fixpoint update (h : heap) (l : loc) (o : object) : heap :=
  match h, l with
  | [], _ => []
  | _ :: rest, 0 => o :: rest
  | x :: rest, S l' => x :: update rest l' o
  end.

(** [isinstance(v, dict)] *)
Definition isinstance_dict (h : heap) (v : hvalue) : bool :=
  match v with
  | HRef l => match nth_error h l with Some (ODict _) => true | _ => false end
  | _ => false
  end.

(** [merged[key] = v] on the dict object at [merged]. *)
Definition setitem (h : heap) (merged : loc) (key : string) (v : hvalue) : heap :=
  match nth_error h merged with
  | Some (ODict items) => update h merged (ODict (dict_set key v items))
  | _ => h
  end.

(** One iteration of the loop; [rec] is the recursive call. *)
Definition merge_item (rec : heap -> loc -> loc -> result (heap * loc))
    (merged : loc) (h : heap) (item : string * hvalue) : result heap :=
  let (key, value) := item in
  match nth_error h merged with
  | Some (ODict items) =>
      match dict_get key items, value with
      | Some (HRef existing), HRef incoming =>
          if isinstance_dict h (HRef existing) && isinstance_dict h (HRef incoming)
          then match rec h existing incoming with
               | Ok (h', r) => Ok (setitem h' merged key (HRef r))
               | Raise e => Raise e
               end
          else Ok (setitem h merged key value)
      | _, _ => Ok (setitem h merged key value)
      end
  | _ => Raise (TypeError "object does not support item assignment")
  end.

Fixpoint merge_items (rec : heap -> loc -> loc -> result (heap * loc))
    (merged : loc) (items : list (string * hvalue)) (h : heap) : result heap :=
  match items with
  | [] => Ok h
  | item :: rest =>
      match merge_item rec merged h item with
      | Ok h' => merge_items rec merged rest h'
      | Raise e => Raise e
      end
  end.

(** [depth] is the interpreter's remaining recursion depth.  The loop
    runs over the items [override] holds when it starts; no iteration
    writes to an object that existed before the call, so these are the
    items the live view yields. *)
Fixpoint deep_merge (depth : nat) (h : heap) (base override : loc)
  : result (heap * loc) :=
  match depth with
  | 0 => Raise RecursionError
  | S depth' =>
      match nth_error h base with
      | Some (ODict base_items) =>
          let (h1, merged) := alloc h (ODict base_items) in
          match nth_error h override with
          | Some (ODict override_items) =>
              match merge_items (deep_merge depth') merged override_items h1 with
              | Ok h2 => Ok (h2, merged)
              | Raise e => Raise e
              end
          | _ => Raise (AttributeError "object has no attribute 'items'")
          end
      | _ => Raise (TypeError "object is not a mapping")
      end
  end.

(** Collects a list of optional results. *)
Fixpoint all_some {A} (l : list (option A)) : option (list A) :=
  match l with
  | [] => Some []
  | Some a :: rest => option_map (cons a) (all_some rest)
  | None :: _ => None
  end.

(** The tree a heap value stands for, reading only objects inside [dom]
    and at most [depth] references deep. *)
Fixpoint snapshot_in (dom : loc -> bool) (depth : nat) (h : heap) (v : hvalue)
  : option value :=
  match v with
  | HNone => Some VNone
  | HBool b => Some (VBool b)
  | HInt n => Some (VInt n)
  | HFloat f => Some (VFloat f)
  | HStr s => Some (VStr s)
  | HRef l =>
      match depth with
      | 0 => None
      | S depth' =>
          if dom l then
            match nth_error h l with
            | Some (ODict items) =>
                option_map VDict
                  (all_some (map (fun item : string * hvalue =>
                                    option_map (pair (fst item))
                                      (snapshot_in dom depth' h (snd item))) items))
            | Some (OList elems) =>
                option_map VList (all_some (map (snapshot_in dom depth' h) elems))
            | None => None
            end
          else None
      end
  end.

Definition snapshot (depth : nat) (h : heap) (v : hvalue) : option value :=
  snapshot_in (fun _ => true) depth h v.

(** The snapshot of the items of a dict object. *)
Definition snapshot_items (dom : loc -> bool) (depth : nat) (h : heap)
    (items : list (string * hvalue)) : option dict :=
  all_some (map (fun item : string * hvalue =>
                   option_map (pair (fst item))
                     (snapshot_in dom depth h (snd item))) items).

(** No object refers outside the heap. *)
Definition value_closed (n : nat) (v : hvalue) : bool :=
  match v with HRef l => (l <? n)%nat | _ => true end.

Definition object_closed (n : nat) (o : object) : bool :=
  match o with
  | ODict items => forallb (fun item => value_closed n (snd item)) items
  | OList elems => forallb (value_closed n) elems
  end.

Definition heap_closed (h : heap) : bool := forallb (object_closed (List.length h)) h.

(** A heap with sharing: the list at 0 is held by both dicts. *)
Definition ex_heap : heap :=
  [ OList [HInt 80; HInt 443];
    ODict [("host", HStr "h"); ("ports", HRef 0)];
    ODict [("name", HStr "demo"); ("db", HRef 1)];
    ODict [("port", HInt 2)];
    ODict [("db", HRef 3); ("ports", HRef 0)] ].

(** What a call may do to the heap: grow it, and leave every object
    that was there as it was. *)
Definition extends (h h' : heap) : Prop :=
  List.length h <= List.length h' /\
  forall l, l < List.length h -> nth_error h' l = nth_error h l.

Definition frames (rec : heap -> loc -> loc -> result (heap * loc)) : Prop :=
  forall h a b h' r, rec h a b = Ok (h', r) -> extends h h'.

(** The loop writes to [merged] only. *)
Definition extends_but (merged : loc) (h h' : heap) : Prop :=
  List.length h <= List.length h' /\
  forall l, l <> merged -> l < List.length h -> nth_error h' l = nth_error h l.

End Heap.

(** The heap merge meets [deep_merge] on the trees its arguments stand
    for: it returns within the given depth, and the new dict stands for
    the merged tree.  [dom] bounds the objects the arguments reach. *)
Definition refines_at (depth : nat) : Prop :=
  forall dom h base override tree_base tree_override,
    (forall l, dom l = true -> l < List.length h) ->
    Heap.snapshot_in dom depth h (Heap.HRef base) = Some (VDict tree_base) ->
    Heap.snapshot_in dom depth h (Heap.HRef override) = Some (VDict tree_override) ->
    exists h',
      Heap.deep_merge depth h base override = Ok (h', List.length h) /\
      Heap.snapshot_in (fun l => dom l || (List.length h <=? l)%nat) depth h'
        (Heap.HRef (List.length h))
      = Some (VDict (deep_merge tree_base tree_override)).

(** ** Concrete inputs used by the examples *)

Definition ex_base : dict :=
  [("app", VDict [("name", VStr "demo"); ("ports", VList [VInt 80; VInt 443]);
                  ("db", VDict [("host", VStr "h"); ("port", VInt 1)])]);
   ("installer", VDict []);
   ("x", VInt 1)].

Definition ex_override : dict :=
  [("app", VDict [("ports", VList [VInt 8080]);
                  ("db", VDict [("port", VInt 2); ("u", VNone)]);
                  ("new", VBool true)]);
   ("docker", VStr "d");
   ("x", VDict [("y", VInt 1)])].

Definition ex_config : dict :=
  [("app", VDict [("name", VStr "demo")]);
   ("installer", VDict []);
   ("docker", VDict [])].

(** A configuration that itself defines the reserved key. *)
Definition ex_config_collision : dict :=
  [("config", VStr "mine"); ("app", VInt 1)].

(** A stand-in parser that knows a few documents by name. *)
Definition ex_safe_load (text : string) : result value :=
  if String.eqb text EmptyString then Ok VNone
  else if String.eqb text "null" then Ok VNone
  else if String.eqb text "{}" then Ok (VDict [])
  else if String.eqb text "demo" then Ok (VDict ex_config)
  else if String.eqb text "collision" then Ok (VDict ex_config_collision)
  else if String.eqb text "override" then Ok (VDict ex_override)
  else Raise (YAMLError "could not parse").

(** A stand-in process and template engine: the working directory is
    [/work], the loader lists [names], a template is its own name,
    [broken.j2] does not compile, and rendering prefixes the name. *)
Definition ex_external (names : list string) : External := {|
  cwd := ["work"];
  create_mode := 420;
  safe_load := ex_safe_load;
  template := string;
  loader_list_templates := fun _ _ => names;
  get_template := fun _ _ template_name =>
    if String.eqb template_name "broken.j2"
    then Raise (TemplateError "unexpected end of template")
    else Ok template_name;
  render := fun _ template _ => Ok ("rendered " +++ template)
|}.

Definition empty_fs : filesystem :=
  fun l => match l with [] => Some Dir | _ => None end.

(** A working directory holding configuration files, a template
    directory and an output directory. *)
Definition ex_fs : filesystem :=
  fs_update (fs_update (fs_update (fs_update (fs_update (fs_update (fs_update
    (fs_update empty_fs
    ["work"] Dir)
    ["work"; "config"] Dir)
    ["work"; "config"; "defaults.yaml"] (File "demo" 420))
    ["work"; "config"; "empty.yaml"] (File EmptyString 420))
    ["work"; "config"; "collision.yaml"] (File "collision" 420))
    ["work"; "config"; "override.yaml"] (File "override" 420))
    ["work"; "templates"] Dir)
    ["work"; "build"] Dir.


(** The example disk with an artifact [build/b] already there. *)
Definition ex_fs_conflict : filesystem :=
  fs_update ex_fs ["work"; "build"; "b"] (File "old" 420).

(** The example disk with an artifact [build/broken] already there. *)
Definition ex_fs_broken : filesystem :=
  fs_update ex_fs ["work"; "build"; "broken"] (File "old" 420).

Definition ex_args_empty : Namespace := {|
  config := ["config"; "empty.yaml"];
  override := None;
  templates := ["templates"];
  output_dir := ["build"];
  force := false;
  verbose := false
|}.

(** ** Further vocabulary *)

(** Every node of [fs] is in [fs'] as it was, contents and mode
    included. *)
Definition keeps (fs fs' : filesystem) : Prop :=
  forall l n, fs l = Some n -> fs' l = Some n.

(** Idempotence of the merge below a value, proved by induction on it. *)
Definition merge_idempotent (v : value) : Prop :=
  wf_value v = true ->
  match v with VDict d => deep_merge d d = d | _ => True end.

(** An override already applied changes nothing when applied again. *)
Definition merge_absorbs (v : value) : Prop :=
  wf_value v = true ->
  match v with
  | VDict o => forall b, wf_dict b = true ->
                         deep_merge (deep_merge b o) o = deep_merge b o
  | _ => True
  end.

(** The second path check of [main]: the override file is there when
    one is given. *)
Definition override_found `{External} (fs : filesystem) (args : Namespace) : bool :=
  match override args with
  | Some p => fs_exists fs p
  | None => true
  end.

(** ** Further example inputs *)

(** A parser that also knows a list and a zero. *)
Definition ex_safe_load_scalars (text : string) : result value :=
  if String.eqb text "[1]" then Ok (VList [VInt 1])
  else if String.eqb text "0" then Ok (VInt 0)
  else ex_safe_load text.

Definition ex_external_scalars (names : list string) : External := {|
  cwd := ["work"];
  create_mode := 420;
  safe_load := ex_safe_load_scalars;
  template := string;
  loader_list_templates := fun _ _ => names;
  get_template := fun _ _ template_name => Ok template_name;
  render := fun _ template _ => Ok ("rendered " +++ template)
|}.

(** The example disk with a configuration file holding a list and one
    holding a zero. *)
Definition ex_fs_scalars : filesystem :=
  fs_update (fs_update ex_fs
    ["work"; "config"; "list.yaml"] (File "[1]" 420))
    ["work"; "config"; "zero.yaml"] (File "0" 420).

(** A full run: base configuration, override, templates, no [--force]. *)
Definition ex_args : Namespace := {|
  config := ["config"; "defaults.yaml"];
  override := Some ["config"; "override.yaml"];
  templates := ["templates"];
  output_dir := ["build"];
  force := false;
  verbose := false
|}.

(** A base configuration that lacks two sections, and no override. *)
Definition ex_args_collision : Namespace := {|
  config := ["config"; "collision.yaml"];
  override := None;
  templates := ["templates"];
  output_dir := ["build"];
  force := false;
  verbose := false
|}.

(** An override file that is not there. *)
Definition ex_args_no_override : Namespace := {|
  config := ["config"; "defaults.yaml"];
  override := Some ["config"; "site.yaml"];
  templates := ["nowhere"];
  output_dir := ["build"];
  force := false;
  verbose := false
|}.

(** A regular file stands where the path needs a directory: a proper
    prefix of the path, not the empty one, leads to a file. *)
Definition file_on_the_way `{External} (fs : filesystem) (p : path) : Prop :=
  exists n, 0 < n < List.length p /\ fs_is_file fs (firstn n p) = true.

(** * Properties *)

(** ** Dictionaries *)

Section DictFacts.
Context {V : Type}.
Implicit Types (d : list (string * V)) (k key : string) (v : V).

Lemma dict_get_set_same key v d : dict_get key (dict_set key v d) = Some v.
Proof.
  induction d as [|[k w] rest IH]; simpl.
  - now rewrite String.eqb_refl.
  - destruct (String.eqb k key) eqn:E; simpl; rewrite E; auto.
Qed.

Lemma dict_get_set_other key k v d :
  key <> k -> dict_get k (dict_set key v d) = dict_get k d.
Proof.
  intros Hne. induction d as [|[k' w] rest IH]; simpl.
  - destruct (String.eqb key k) eqn:E; auto.
    apply String.eqb_eq in E. contradiction.
  - destruct (String.eqb k' key) eqn:E; simpl.
    + apply String.eqb_eq in E. subst k'.
      destruct (String.eqb key k) eqn:E'; auto.
      apply String.eqb_eq in E'. contradiction.
    + destruct (String.eqb k' k); auto.
Qed.

Lemma dict_get_set key k v d :
  dict_get k (dict_set key v d) = if String.eqb key k then Some v else dict_get k d.
Proof.
  destruct (String.eqb key k) eqn:E.
  - apply String.eqb_eq in E. subst. apply dict_get_set_same.
  - apply String.eqb_neq in E. now apply dict_get_set_other.
Qed.

Lemma dict_get_none_iff k d :
  dict_get k d = None <-> existsb (String.eqb k) (map fst d) = false.
Proof.
  induction d as [|[k' w] rest IH]; simpl.
  - tauto.
  - rewrite (String.eqb_sym k k'). destruct (String.eqb k' k); simpl.
    + split; discriminate.
    + exact IH.
Qed.

Lemma dict_mem_false k d : dict_mem k d = false <-> dict_get k d = None.
Proof. unfold dict_mem. destruct (dict_get k d); split; congruence. Qed.

(** Keys after an assignment: unchanged for a present key, one more at
    the end for a new one. *)
Lemma keys_dict_set key v d :
  map fst (dict_set key v d) =
  if dict_mem key d then map fst d else map fst d ++ [key].
Proof.
  unfold dict_mem. induction d as [|[k w] rest IH]; simpl; auto.
  destruct (String.eqb k key) eqn:E; simpl; auto.
  rewrite IH. destruct (dict_get key rest); auto.
Qed.

Lemma nodupb_snoc (l : list string) k :
  nodupb l = true -> existsb (String.eqb k) l = false -> nodupb (l ++ [k]) = true.
Proof.
  induction l as [|x l IH]; simpl; auto.
  intros Hn Hk. apply andb_true_iff in Hn as [Hx Hl].
  apply orb_false_iff in Hk as [Hkx Hkl].
  rewrite existsb_app. simpl. rewrite (String.eqb_sym x k), Hkx. simpl.
  rewrite orb_false_r, Hx. simpl. auto.
Qed.

Lemma nodupb_keys_dict_set key v d :
  nodupb (map fst d) = true -> nodupb (map fst (dict_set key v d)) = true.
Proof.
  intros Hn. rewrite keys_dict_set. destruct (dict_mem key d) eqn:E; auto.
  apply nodupb_snoc; auto. apply dict_get_none_iff. now apply dict_mem_false.
Qed.

End DictFacts.

(** ** [deep_merge] against its reference *)

Lemma deep_merge_unfold base override :
  deep_merge base override = fold_left (merge_item deep_merge_value) override base.
Proof. reflexivity. Qed.

(** What one loop iteration leaves under each key. *)
Lemma merge_item_get merged key v k :
  dict_get k (merge_item deep_merge_value merged (key, v)) =
  if String.eqb key k
  then merged_entry (dict_get key merged) (Some v)
  else dict_get k merged.
Proof.
  unfold merge_item, merged_entry.
  destruct (dict_get key merged) as [[]|] eqn:G; destruct v; simpl;
    rewrite dict_get_set; destruct (String.eqb key k); reflexivity.
Qed.

Lemma merged_entry_none_r b : merged_entry b None = b.
Proof. destruct b as [[]|]; reflexivity. Qed.

Lemma merge_loop_get override : forall merged k,
  nodupb (keys override) = true ->
  dict_get k (fold_left (merge_item deep_merge_value) override merged) =
  merged_entry (dict_get k merged) (dict_get k override).
Proof.
  induction override as [|[key v] rest IH]; intros merged k Hnd.
  - simpl. now rewrite merged_entry_none_r.
  - simpl in Hnd. apply andb_true_iff in Hnd as [Hfresh Hnd].
    apply negb_true_iff in Hfresh.
    cbn [fold_left]. rewrite IH by exact Hnd. rewrite merge_item_get.
    cbn [dict_get].
    destruct (String.eqb key k) eqn:E.
    + apply String.eqb_eq in E. subst k.
      apply dict_get_none_iff in Hfresh. rewrite Hfresh.
      now rewrite merged_entry_none_r.
    + reflexivity.
Qed.

(** *** Well-formedness is preserved *)

Lemma wf_dict_unfold d :
  wf_dict d = nodupb (keys d) && forallb (fun item => wf_value (snd item)) d.
Proof. reflexivity. Qed.

Lemma dict_get_In (d : dict) k v : dict_get k d = Some v -> In (k, v) d.
Proof.
  induction d as [|[k' w] rest IH]; simpl; [discriminate|].
  destruct (String.eqb k' k) eqn:E.
  - apply String.eqb_eq in E. intros [= ->]. subst. now left.
  - intros Hg. right. auto.
Qed.

Lemma dict_get_wf d k v :
  wf_dict d = true -> dict_get k d = Some v -> wf_value v = true.
Proof.
  rewrite wf_dict_unfold. intros Hwf Hg.
  apply andb_true_iff in Hwf as [_ Hall].
  rewrite forallb_forall in Hall. apply (Hall (k, v)). now apply dict_get_In.
Qed.

Lemma forallb_dict_set {V} (f : string * V -> bool) key v d :
  forallb f d = true -> (forall k, f (k, v) = true) ->
  forallb f (dict_set key v d) = true.
Proof.
  intros Hd Hv. induction d as [|[k w] rest IH]; simpl in *.
  - now rewrite Hv.
  - apply andb_true_iff in Hd as [Hk Hrest].
    destruct (String.eqb k key); simpl.
    + now rewrite Hv, Hrest.
    + now rewrite Hk, IH.
Qed.

Lemma wf_dict_set d key v :
  wf_dict d = true -> wf_value v = true -> wf_dict (dict_set key v d) = true.
Proof.
  rewrite !wf_dict_unfold. intros Hwf Hv.
  apply andb_true_iff in Hwf as [Hn Hall].
  apply andb_true_iff. split.
  - now apply nodupb_keys_dict_set.
  - apply forallb_dict_set; auto.
Qed.


Lemma wf_merge_item merged key v :
  merge_keeps_wf v -> wf_dict merged = true -> wf_value v = true ->
  wf_dict (merge_item deep_merge_value merged (key, v)) = true.
Proof.
  intros IH Hm Hv. unfold merge_item.
  destruct (dict_get key merged) as [existing|] eqn:G.
  - assert (He : wf_value existing = true) by (eapply dict_get_wf; eauto).
    destruct existing; try (apply wf_dict_set; assumption).
    destruct (isinstance_dict v); apply wf_dict_set; auto.
    apply IH; auto.
  - apply wf_dict_set; assumption.
Qed.

Lemma wf_merge_loop items : forall merged,
  Forall (fun item => merge_keeps_wf (snd item)) items ->
  wf_dict merged = true ->
  forallb (fun item => wf_value (snd item)) items = true ->
  wf_dict (fold_left (merge_item deep_merge_value) items merged) = true.
Proof.
  induction items as [|[key v] rest IH]; intros merged HF Hm Hall; simpl; auto.
  simpl in Hall. apply andb_true_iff in Hall as [Hv Hrest].
  inversion HF as [|? ? Hhead Htail]; subst. simpl in Hhead.
  apply IH; auto. apply wf_merge_item; auto.
Qed.

Lemma wf_deep_merge_value v : merge_keeps_wf v.
Proof.
  induction v as [| | | | | xs IH | items IH] using value_ind;
    intros base Hb Hv; simpl; auto.
  apply andb_true_iff in Hv as [_ Hall].
  apply wf_merge_loop; auto.
Qed.

Lemma wf_deep_merge base override :
  wf_dict base = true -> wf_dict override = true ->
  wf_dict (deep_merge base override) = true.
Proof. intros Hb Ho. now apply wf_deep_merge_value. Qed.

(** *** The loop computes the reference *)

Lemma deep_merge_ref_unfold base override :
  deep_merge_ref base override =
  map (ref_item deep_merge_ref_value override) base
  ++ filter (fun item : string * value => negb (dict_mem (fst item) base)) override.
Proof. reflexivity. Qed.



Lemma merge_item_stored merged key v :
  merge_item deep_merge_value merged (key, v) =
  dict_set key (stored_value (dict_get key merged) v) merged.
Proof.
  unfold merge_item, stored_value.
  destruct (dict_get key merged) as [[]|]; try reflexivity.
  destruct (isinstance_dict v); reflexivity.
Qed.

(** With the key absent from the rest of the override, the reference
    puts the stored value under that key. *)
Lemma ref_item_head key v rest vb :
  merge_meets_ref v -> wf_value vb = true -> wf_value v = true ->
  ref_item deep_merge_ref_value ((key, v) :: rest) (key, vb) =
  (key, stored_value (Some vb) v).
Proof.
  intros IH Hvb Hv. unfold ref_item, stored_value. cbn [dict_get].
  rewrite String.eqb_refl.
  destruct vb as [| | | | | |e]; try (destruct v; reflexivity).
  destruct v as [| | | | | |o]; try reflexivity.
  cbn [isinstance_dict]. rewrite (IH e Hvb Hv). reflexivity.
Qed.

Lemma ref_item_skip key v rest k vb :
  key <> k ->
  ref_item deep_merge_ref_value ((key, v) :: rest) (k, vb) =
  ref_item deep_merge_ref_value rest (k, vb).
Proof.
  intros Hne. unfold ref_item. cbn [dict_get].
  apply String.eqb_neq in Hne. now rewrite Hne.
Qed.

Lemma ref_item_absent rest k vb :
  dict_get k rest = None -> ref_item deep_merge_ref_value rest (k, vb) = (k, vb).
Proof. intros Hg. unfold ref_item. now rewrite Hg. Qed.

Lemma map_ref_item_skip key v rest (b : dict) :
  dict_get key b = None ->
  map (ref_item deep_merge_ref_value ((key, v) :: rest)) b =
  map (ref_item deep_merge_ref_value rest) b.
Proof.
  induction b as [|[k vb] b' IH]; simpl; auto.
  destruct (String.eqb k key) eqn:E; [discriminate|].
  intros Hg. rewrite IH by exact Hg.
  f_equal. apply ref_item_skip. apply String.eqb_neq in E. congruence.
Qed.

(** A key missing from the base is appended by the assignment. *)
Lemma dict_set_absent {V} key (v : V) d :
  dict_get key d = None -> dict_set key v d = d ++ [(key, v)].
Proof.
  induction d as [|[k w] rest IH]; simpl; auto.
  destruct (String.eqb k key); [discriminate|].
  intros Hg. now rewrite IH.
Qed.

Lemma dict_mem_set {V} key (v : V) d k :
  dict_mem k (dict_set key v d) = String.eqb key k || dict_mem k d.
Proof.
  unfold dict_mem. rewrite dict_get_set.
  destruct (String.eqb key k); reflexivity.
Qed.

(** Replacing the value of a present key, seen through the reference. *)
Lemma map_ref_item_set key v rest : forall (b : dict) vb,
  merge_meets_ref v -> wf_value v = true ->
  wf_dict b = true ->
  dict_get key b = Some vb ->
  dict_get key rest = None ->
  map (ref_item deep_merge_ref_value rest) (dict_set key (stored_value (Some vb) v) b) =
  map (ref_item deep_merge_ref_value ((key, v) :: rest)) b.
Proof.
  induction b as [|[k w] b' IH]; intros vb Hv Hwv Hwf Hg Hrest; [discriminate|].
  rewrite wf_dict_unfold in Hwf. simpl in Hwf.
  apply andb_true_iff in Hwf as [Hn Hall].
  apply andb_true_iff in Hn as [Hfresh Hn].
  apply andb_true_iff in Hall as [Hw Hall].
  apply negb_true_iff in Hfresh.
  simpl in Hg. cbn [dict_set].
  destruct (String.eqb k key) eqn:E.
  - apply String.eqb_eq in E. subst k. injection Hg as ->.
    cbn [map]. rewrite ref_item_absent by exact Hrest.
    rewrite ref_item_head by assumption.
    f_equal. symmetry. apply map_ref_item_skip.
    now apply dict_get_none_iff.
  - cbn [map]. f_equal.
    + symmetry. apply ref_item_skip. apply String.eqb_neq in E. congruence.
    + apply IH; auto. rewrite wf_dict_unfold. now rewrite Hn, Hall.
Qed.

Lemma merge_loop_ref items : forall b,
  Forall (fun item => merge_meets_ref (snd item)) items ->
  wf_dict b = true -> wf_dict items = true ->
  fold_left (merge_item deep_merge_value) items b = deep_merge_ref b items.
Proof.
  induction items as [|[key v] rest IH]; intros b HF Hb Hitems.
  - rewrite deep_merge_ref_unfold. simpl. rewrite app_nil_r.
    clear. induction b as [|[k vb] b' IHb]; simpl; [reflexivity|].
    now rewrite <- IHb.
  - inversion HF as [|? ? Hhead Htail]; subst. simpl in Hhead.
    pose proof Hitems as Hitems'.
    rewrite wf_dict_unfold in Hitems'. simpl in Hitems'.
    apply andb_true_iff in Hitems' as [Hn Hall].
    apply andb_true_iff in Hn as [Hfresh Hn].
    apply andb_true_iff in Hall as [Hv Hall].
    apply negb_true_iff in Hfresh. apply dict_get_none_iff in Hfresh.
    assert (Hrest : wf_dict rest = true)
      by (rewrite wf_dict_unfold; now rewrite Hn, Hall).
    cbn [fold_left]. rewrite IH; auto.
    2: { apply wf_merge_item; auto. intros ? ? ?. now apply wf_deep_merge_value. }
    rewrite merge_item_stored, !deep_merge_ref_unfold.
    destruct (dict_get key b) as [vb|] eqn:G.
    + (* the key is in the base: its value is replaced in place *)
      rewrite map_ref_item_set; auto.
      f_equal. cbn [filter fst]. unfold dict_mem at 2. rewrite G. cbn [negb].
      apply filter_ext. intros [k w]. cbn [fst]. rewrite dict_mem_set.
      destruct (String.eqb key k) eqn:E; auto.
      apply String.eqb_eq in E. subst k. unfold dict_mem. now rewrite G.
    + (* a new key: appended after the base *)
      cbn [stored_value]. rewrite dict_set_absent by exact G.
      rewrite map_app. cbn [map]. rewrite ref_item_absent by exact Hfresh.
      rewrite map_ref_item_skip by exact G.
      rewrite <- app_assoc. f_equal.
      cbn [filter fst]. unfold dict_mem at 2. rewrite G. cbn [negb app].
      f_equal. apply filter_ext_in. intros [k w] Hin. cbn [fst].
      rewrite <- dict_set_absent with (v := v) by exact G.
      rewrite dict_mem_set.
      destruct (String.eqb key k) eqn:E; auto.
      apply String.eqb_eq in E. subst k. exfalso.
      apply dict_get_none_iff in Hfresh.
      apply (in_map fst) in Hin. cbn [fst] in Hin.
      assert (Hex : existsb (String.eqb key) (map fst rest) = true).
      { apply existsb_exists. exists key. split; auto. apply String.eqb_refl. }
      congruence.
Qed.

Lemma deep_merge_value_ref v : merge_meets_ref v.
Proof.
  induction v as [| | | | | xs IH | items IH] using value_ind;
    intros base Hb Hv; try reflexivity.
  apply merge_loop_ref; auto.
Qed.

Lemma deep_merge_is_ref base override :
  wf_dict base = true -> wf_dict override = true ->
  deep_merge base override = deep_merge_ref base override.
Proof. intros Hb Ho. now apply (deep_merge_value_ref (VDict override)). Qed.

(** C1. On well-formed mappings [deep_merge] is the reference deep merge
    of the specification, and under every key [k] the result holds: the
    recursive merge of [base[k]] and [override[k]] when both are
    mappings, else [override[k]] when the override has [k], else
    [base[k]]; a key of neither input is not in the result. *)
Theorem deep_merge_reference base override :
  wf_dict base = true -> wf_dict override = true ->
  deep_merge base override = deep_merge_ref base override /\
  forall k, dict_get k (deep_merge base override) =
            merged_entry (dict_get k base) (dict_get k override).
Proof.
  intros Hb Ho. split.
  - now apply deep_merge_is_ref.
  - intros k. rewrite deep_merge_unfold. apply merge_loop_get.
    rewrite wf_dict_unfold in Ho. now apply andb_true_iff in Ho as [Hn _].
Qed.


(** ** Loading and the rendering context *)

Section ScriptFacts.
Context `{External}.

Lemma read_text_file fs p text mode :
  stat fs p = Some (File text mode) -> read_text p fs = (fs, Ok text).
Proof.
  unfold stat, read_text. destruct (locate fs p) as [e|l]; [discriminate|].
  now intros ->.
Qed.

(** C8. A file whose document is empty or a literal null (the parser
    yields [None] for both) loads as the empty mapping; nothing is raised
    and the disk is untouched. *)
Theorem load_yaml_null_document fs p text mode :
  stat fs p = Some (File text mode) ->
  safe_load text = Ok VNone ->
  load_yaml p fs = (fs, Ok (VDict [])).
Proof.
  intros Hfile Hparse. unfold load_yaml, bind, lift, ret.
  rewrite (read_text_file _ _ _ _ Hfile). now rewrite Hparse.
Qed.

Lemma load_yaml_ok_exists fs p fs' v :
  load_yaml p fs = (fs', Ok v) -> fs_exists fs p = true.
Proof.
  unfold load_yaml, bind, read_text, fs_exists, stat.
  destruct (locate fs p) as [e|l]; [discriminate|].
  destruct (fs l) as [[|]|]; auto; discriminate.
Qed.

Lemma context_of_exposes config : exposes config (context_of config).
Proof.
  unfold exposes, context_of. split.
  - apply dict_get_set_same.
  - intros k Hk. apply dict_get_set_other. congruence.
Qed.

(** C7. Once the configuration files load as mappings, [build_context]
    raises nothing and its result shows the merge result: every key
    other than ["config"] reads as in the merge result, and ["config"]
    reads as the whole merge result, also when the merge result has a
    key ["config"] of its own. *)
Theorem build_context_exposes :
  (forall fs default_config base,
      load_yaml default_config fs = (fs, Ok (VDict base)) ->
      exists context,
        build_context default_config None fs = (fs, Ok context) /\
        exposes base context) /\
  (forall fs default_config override_config base overrides,
      load_yaml default_config fs = (fs, Ok (VDict base)) ->
      load_yaml override_config fs = (fs, Ok (VDict overrides)) ->
      exists context,
        build_context default_config (Some override_config) fs = (fs, Ok context) /\
        exposes (deep_merge base overrides) context).
Proof.
  split.
  - intros fs d base Hload. exists (context_of base). split.
    + unfold build_context, bind. rewrite Hload. reflexivity.
    + apply context_of_exposes.
  - intros fs d o base overrides Hload Hover.
    exists (context_of (deep_merge base overrides)). split.
    + unfold build_context, bind. rewrite Hload, Hover. reflexivity.
    + apply context_of_exposes.
Qed.

(** Whatever [build_context] returns is the context of some mapping. *)
Lemma build_context_inv fs default_config override_config fs' context :
  build_context default_config override_config fs = (fs', Ok context) ->
  exists merged, context = context_of merged.
Proof.
  unfold build_context, bind.
  destruct (load_yaml default_config fs) as [fs1 [config1|e]]; [|discriminate].
  destruct override_config as [p|].
  - destruct (load_yaml p fs1) as [fs2 [overrides|e]]; [|discriminate].
    unfold lift. destruct (call_deep_merge config1 overrides) as [merged|e];
      [|discriminate].
    destruct merged; try discriminate. intros [= _ <-]. eauto.
  - unfold ret. destruct config1; try discriminate. intros [= _ <-]. eauto.
Qed.

(** ** Validation *)

Lemma validate_config_nonempty config :
  config <> [] ->
  validate_config config =
  let missing := filter (fun key => negb (dict_mem key config)) required_sections in
  match missing with
  | [] => Ok tt
  | _ :: _ => Raise (missing_sections missing)
  end.
Proof. destruct config; [congruence | reflexivity]. Qed.

(** C6. [validate_config] raises the empty-configuration error on the
    empty mapping; on a non-empty mapping lacking a required section it
    raises one missing-sections error whose message joins with [", "]
    the absent keys among [app], [installer], [docker], all of them and
    no other, in that order; and it returns normally when the three
    keys are present, whatever their values. *)
Theorem validate_config_cases :
  validate_config [] =
  Raise (ValueError "Configuration is empty after loading and merging YAML files.") /\
  (forall config,
      config <> [] ->
      (exists key, In key ["app"; "installer"; "docker"] /\ dict_mem key config = false) ->
      exists missing,
        validate_config config =
        Raise (ValueError ("Missing required configuration sections: "
                           +++ String.concat ", " missing)) /\
        missing = filter (fun key => negb (dict_mem key config))
                    ["app"; "installer"; "docker"] /\
        forall key, In key missing <->
                    In key ["app"; "installer"; "docker"] /\ dict_mem key config = false) /\
  (forall config,
      dict_mem "app" config = true ->
      dict_mem "installer" config = true ->
      dict_mem "docker" config = true ->
      validate_config config = Ok tt).
Proof.
  split; [reflexivity | split].
  - intros config Hne [key [Hin Habsent]].
    exists (filter (fun key => negb (dict_mem key config)) required_sections).
    assert (Hspec : forall k,
               In k (filter (fun key => negb (dict_mem key config)) required_sections) <->
               In k ["app"; "installer"; "docker"] /\ dict_mem k config = false).
    { intros k. rewrite filter_In, negb_true_iff. reflexivity. }
    split; [|split; [reflexivity | exact Hspec]].
    rewrite validate_config_nonempty by exact Hne. cbv zeta.
    destruct (filter _ required_sections) as [|m ms] eqn:F; [|reflexivity].
    exfalso. apply (proj2 (Hspec key)). split; assumption.
  - intros config Happ Hinst Hdock.
    assert (Hne : config <> []) by (intros ->; discriminate).
    rewrite validate_config_nonempty by exact Hne.
    unfold required_sections. cbn [filter]. now rewrite Happ, Hinst, Hdock.
Qed.

(** C9. The mapping [main] hands to [validate_config] comes from
    [build_context], holds the key ["config"] and is not empty, so the
    empty-configuration error cannot come out of that call; and with an
    empty base configuration and no override, [main] stops with the
    missing-sections error naming [app], [installer] and [docker]. *)
Theorem empty_configuration_unreachable :
  (forall fs default_config override_config fs' context,
      build_context default_config override_config fs = (fs', Ok context) ->
      dict_mem "config" context = true /\
      context <> [] /\
      validate_config context <> Raise empty_configuration) /\
  (forall fs args,
      override args = None ->
      load_yaml (config args) fs = (fs, Ok (VDict [])) ->
      fs_exists fs (templates args) = true ->
      main args fs =
      (fs, Raise (ValueError
                    "Missing required configuration sections: app, installer, docker"))).
Proof.
  split.
  - intros fs d o fs' context Hbuild.
    apply build_context_inv in Hbuild as [merged ->].
    assert (Hmem : dict_mem "config" (context_of merged) = true).
    { unfold dict_mem, context_of. now rewrite dict_get_set_same. }
    assert (Hne : context_of merged <> []).
    { intros Heq. rewrite Heq in Hmem. discriminate. }
    repeat split; auto.
    rewrite validate_config_nonempty by exact Hne. cbv zeta.
    destruct (filter _ required_sections); discriminate.
  - intros fs args Hover Hload Htpl.
    assert (Hcfg := load_yaml_ok_exists _ _ _ _ Hload).
    unfold main, bind, path_exists. rewrite Hcfg. cbn [negb].
    rewrite Hover. unfold ret. cbn [negb]. rewrite Htpl. cbn [negb].
    unfold build_context, bind. rewrite Hload. reflexivity.
Qed.

End ScriptFacts.

(** ** Strings and paths *)

Lemma substring_split s : forall n,
  n <= String.length s ->
  substring 0 n s +++ substring n (String.length s - n) s = s.
Proof.
  unfold str_concat.
  induction s as [|c s IH]; intros [|n] Hn; simpl in *; try lia; auto.
  - f_equal. clear. induction s as [|c' s IH]; simpl; congruence.
  - f_equal. apply IH. lia.
Qed.

Lemma substring_skip a : forall b m,
  substring (String.length a) m (a +++ b) = substring 0 m b.
Proof.
  unfold str_concat. induction a as [|c a IH]; intros b m; simpl; auto.
Qed.

Lemma length_concat a b :
  String.length (a +++ b) = String.length a + String.length b.
Proof. unfold str_concat. induction a; simpl; auto. Qed.

Lemma rfind_dot_concat a : forall b,
  rfind_dot (a +++ b) =
  match rfind_dot b with
  | Some i => Some (String.length a + i)
  | None => rfind_dot a
  end.
Proof.
  unfold str_concat. induction a as [|c a IH]; intros b; simpl.
  - destruct (rfind_dot b); reflexivity.
  - rewrite IH. destruct (rfind_dot b); reflexivity.
Qed.



(** [suffix] is [".sh"] exactly for the names with that extension. *)
Lemma suffix_sh p : suffix p = ".sh" <-> has_sh_extension (name p).
Proof.
  unfold suffix, has_sh_extension. set (n := name p). split.
  - destruct (rfind_dot n) as [i|]; [|discriminate].
    destruct (0 <? i)%nat eqn:Hi; [|discriminate].
    destruct (i <? String.length n - 1)%nat eqn:Hl; [|discriminate]. cbn [andb].
    apply Nat.ltb_lt in Hi, Hl. intros Hs.
    exists (substring 0 i n). split.
    + destruct n as [|c n']; [simpl in Hl; lia|].
      destruct i as [|i']; [lia|]. discriminate.
    + rewrite <- Hs. symmetry. apply substring_split. lia.
  - intros (stem & Hne & ->).
    rewrite rfind_dot_concat. cbn [rfind_dot Ascii.eqb Bool.eqb].
    rewrite length_concat, Nat.add_0_r.
    assert (Hlen : 0 < String.length stem) by (destruct stem; simpl; [congruence|lia]).
    replace (0 <? String.length stem)%nat with true by (symmetry; now apply Nat.ltb_lt).
    replace (String.length stem <? String.length stem + String.length ".sh" - 1)%nat
      with true by (symmetry; apply Nat.ltb_lt; simpl; lia).
    cbn [andb]. rewrite substring_skip.
    replace (String.length stem + String.length ".sh" - String.length stem)
      with 3 by (simpl; lia).
    reflexivity.
Qed.

(** ** Filesystem *)

Lemma path_eqb_eq p q : path_eqb p q = true <-> p = q.
Proof.
  revert q. induction p as [|a p IH]; intros [|b q]; simpl;
    try (split; [discriminate | congruence]); [tauto|].
  rewrite andb_true_iff, String.eqb_eq, IH. split.
  - intros [-> ->]. reflexivity.
  - intros [= -> ->]. auto.
Qed.

Lemma path_eqb_refl p : path_eqb p p = true.
Proof. now apply path_eqb_eq. Qed.

Lemma path_eqb_neq p q : path_eqb p q = false <-> p <> q.
Proof.
  split.
  - intros E Heq. apply path_eqb_eq in Heq. congruence.
  - intros Hne. destruct (path_eqb p q) eqn:E; auto.
    apply path_eqb_eq in E. contradiction.
Qed.

Lemma fs_update_same fs l n : fs_update fs l n l = Some n.
Proof. unfold fs_update. now rewrite path_eqb_refl. Qed.

Lemma fs_update_other fs l n q : l <> q -> fs_update fs l n q = fs q.
Proof. intros Hne. unfold fs_update. apply path_eqb_neq in Hne. now rewrite Hne. Qed.

Lemma snoc_neq (l : list string) c : l ++ [c] <> l.
Proof.
  intros Heq. apply (f_equal (@List.length string)) in Heq.
  rewrite length_app in Heq. simpl in Heq. lia.
Qed.

(** *** How disks change *)

Lemma adds_dirs_refl fs : adds_dirs fs fs.
Proof. intros l. now left. Qed.

Lemma adds_dirs_trans fs1 fs2 fs3 :
  adds_dirs fs1 fs2 -> adds_dirs fs2 fs3 -> adds_dirs fs1 fs3.
Proof.
  intros H12 H23 l. destruct (H12 l) as [E12|[N1 D2]], (H23 l) as [E23|[N2 D3]].
  - left. congruence.
  - right. split; congruence.
  - right. split; congruence.
  - congruence.
Qed.

Lemma adds_dirs_update fs l : fs l = None -> adds_dirs fs (fs_update fs l Dir).
Proof.
  intros Hl q. unfold fs_update. destruct (path_eqb l q) eqn:E; auto.
  apply path_eqb_eq in E. subst q. auto.
Qed.

Lemma grows_refl fs : grows fs fs.
Proof. intros l. split; eauto. Qed.

Lemma grows_trans fs1 fs2 fs3 : grows fs1 fs2 -> grows fs2 fs3 -> grows fs1 fs3.
Proof.
  intros H12 H23 l. split.
  - intros Hd. apply H23. now apply H12.
  - intros c m Hf. apply H12 in Hf as (c' & m' & Hf). now apply H23 in Hf.
Qed.

Lemma adds_dirs_grows fs fs' : adds_dirs fs fs' -> grows fs fs'.
Proof.
  intros Hadd l. destruct (Hadd l) as [E|[N D]]; split.
  - congruence.
  - intros c m Hf. exists c, m. congruence.
  - congruence.
  - congruence.
Qed.

(** Writing a file where there is none or a file. *)
Lemma grows_update_file fs l content mode :
  fs l <> Some Dir -> grows fs (fs_update fs l (File content mode)).
Proof.
  intros Hnd q. unfold fs_update. destruct (path_eqb l q) eqn:E.
  - apply path_eqb_eq in E. subst q. split; [congruence | eauto].
  - split; eauto.
Qed.

(** *** Resolution *)

Lemma walk_snoc fs cs : forall l c,
  walk fs l (cs ++ [c]) =
  match walk fs l cs with
  | inr d =>
      match fs (enter d c) with
      | Some Dir => inr (enter d c)
      | Some (File _ _) => inl ENOTDIR
      | None => inl ENOENT
      end
  | inl e => inl e
  end.
Proof.
  induction cs as [|c0 cs IH]; intros l c; simpl.
  - destruct (fs (enter l c)) as [[|]|]; reflexivity.
  - destruct (fs (enter l c0)) as [[|]|]; auto.
Qed.

Lemma walk_dir fs cs : forall l d,
  fs l = Some Dir -> walk fs l cs = inr d -> fs d = Some Dir.
Proof.
  induction cs as [|c cs IH]; intros l d Hl; simpl.
  - now intros [= <-].
  - destruct (fs (enter l c)) as [[|]|] eqn:E; try discriminate. now apply IH.
Qed.

Lemma walk_grows fs fs' cs : forall l d,
  grows fs fs' -> walk fs l cs = inr d -> walk fs' l cs = inr d.
Proof.
  induction cs as [|c cs IH]; intros l d Hg; simpl; auto.
  destruct (fs (enter l c)) as [[|]|] eqn:E; try discriminate.
  apply Hg in E. rewrite E. now apply IH.
Qed.

Section FsFacts.
Context `{External}.

Lemma fs_wf_cwd fs : fs_wf fs -> fs cwd = Some Dir.
Proof. now intros (_ & _ & Hcwd). Qed.

Lemma fs_wf_parent fs l : fs_wf fs -> fs l <> None -> fs (removelast l) = Some Dir.
Proof.
  intros (Hroot & Hparent & _) Hl. destruct l as [|a l'] using rev_ind.
  - exact Hroot.
  - rewrite removelast_last. now apply (Hparent _ a).
Qed.

Lemma fs_wf_update_dir fs l :
  fs_wf fs -> fs (removelast l) = Some Dir -> fs_wf (fs_update fs l Dir).
Proof.
  intros (Hroot & Hparent & Hcwd) Hp. unfold fs_update. repeat split.
  - destruct (path_eqb l []); auto.
  - intros q c Hex.
    destruct (path_eqb l q) eqn:Eq; auto.
    destruct (path_eqb l (q ++ [c])) eqn:Eqc.
    + apply path_eqb_eq in Eqc. subst l. now rewrite removelast_last in Hp.
    + now apply (Hparent q c).
  - destruct (path_eqb l cwd); auto.
Qed.

Lemma fs_wf_update_file fs l content mode :
  fs_wf fs -> fs (removelast l) = Some Dir -> fs l <> Some Dir ->
  fs_wf (fs_update fs l (File content mode)).
Proof.
  intros (Hroot & Hparent & Hcwd) Hp Hnd. unfold fs_update. repeat split.
  - destruct (path_eqb l []) eqn:E; auto.
    apply path_eqb_eq in E. subst l. contradiction.
  - intros q c Hex.
    destruct (path_eqb l (q ++ [c])) eqn:Eqc.
    + apply path_eqb_eq in Eqc. subst l. rewrite removelast_last in Hp.
      destruct (path_eqb (q ++ [c]) q) eqn:Eq; auto.
      apply path_eqb_eq in Eq. exfalso. eapply snoc_neq; eauto.
    + destruct (path_eqb l q) eqn:Eq.
      * apply path_eqb_eq in Eq. subst q. exfalso. apply Hnd.
        now apply (Hparent l c).
      * now apply (Hparent q c).
  - destruct (path_eqb l cwd) eqn:E; auto.
    apply path_eqb_eq in E. subst l. contradiction.
Qed.

(** Where a path leads once its directories are there. *)
Lemma locate_cases fs p l :
  locate fs p = inr l ->
  (p = [] /\ l = cwd) \/
  (exists d, p <> [] /\ walk fs cwd (parent p) = inr d /\ l = enter d (name p)).
Proof.
  unfold locate. destruct p as [|a p']; [intros [= <-]; auto|].
  destruct (walk fs cwd (removelast (a :: p'))) as [e|d] eqn:W; [discriminate|].
  intros [= <-]. right. exists d. repeat split; auto. discriminate.
Qed.

Lemma locate_grows fs fs' p l :
  grows fs fs' -> locate fs p = inr l -> locate fs' p = inr l.
Proof.
  intros Hg. unfold locate. destruct p as [|a p']; auto.
  destruct (walk fs cwd (removelast (a :: p'))) as [e|d] eqn:W; [discriminate|].
  now rewrite (walk_grows _ _ _ _ _ Hg W).
Qed.

(** A location a path leads to exists or lies in a directory. *)
Lemma locate_in_dir fs p l :
  fs_wf fs -> locate fs p = inr l ->
  fs l = Some Dir \/ fs (removelast l) = Some Dir.
Proof.
  intros Hwf Hloc. apply locate_cases in Hloc as [[_ ->] | (d & _ & W & ->)].
  - left. now apply fs_wf_cwd.
  - apply walk_dir in W; [|now apply fs_wf_cwd].
    unfold enter. destruct (String.eqb (name p) "..").
    + left. apply fs_wf_parent; auto. congruence.
    + right. now rewrite removelast_last.
Qed.

(** A path that walks as a chain of directories is a directory. *)
Lemma walk_stat fs p d :
  fs_wf fs -> walk fs cwd p = inr d -> stat fs p = Some Dir.
Proof.
  intros Hwf W. unfold stat, locate.
  destruct p as [|a p'] using rev_ind.
  - injection W as <-. now apply fs_wf_cwd.
  - clear IHp'. rewrite walk_snoc in W. rewrite removelast_last, last_last.
    destruct (p' ++ [a]) eqn:E; [now apply app_eq_nil in E as [_ E]|].
    destruct (walk fs cwd p') as [e|d']; [discriminate|].
    destruct (fs (enter d' a)) as [[|]|] eqn:F; try discriminate. reflexivity.
Qed.

Lemma exists_parent_dir fs p :
  fs_wf fs -> fs_exists fs p = true -> fs_is_dir fs (parent p) = true.
Proof.
  intros Hwf. unfold fs_exists, fs_is_dir, stat at 1.
  destruct (locate fs p) as [e|l] eqn:Hloc; [discriminate|]. intros _.
  apply locate_cases in Hloc as [[-> _] | (d & _ & W & _)].
  - unfold stat. simpl. now rewrite (fs_wf_cwd _ Hwf).
  - now rewrite (walk_stat _ _ _ Hwf W).
Qed.

Lemma stat_grows_dir fs fs' p :
  grows fs fs' -> fs_is_dir fs p = true -> fs_is_dir fs' p = true.
Proof.
  intros Hg. unfold fs_is_dir, stat.
  destruct (locate fs p) as [e|l] eqn:Hloc; [discriminate|].
  rewrite (locate_grows _ _ _ _ Hg Hloc).
  destruct (fs l) as [[|]|] eqn:F; try discriminate. apply Hg in F. now rewrite F.
Qed.

Lemma stat_grows_file fs fs' p :
  grows fs fs' -> fs_is_file fs p = true -> fs_is_file fs' p = true.
Proof.
  intros Hg. unfold fs_is_file, stat.
  destruct (locate fs p) as [e|l] eqn:Hloc; [discriminate|].
  rewrite (locate_grows _ _ _ _ Hg Hloc).
  destruct (fs l) as [[c m|]|] eqn:F; try discriminate.
  apply Hg in F as (c' & m' & F). now rewrite F.
Qed.

End FsFacts.

(** *** [mkdir] *)

Section OpFacts.
Context `{External}.

Lemma os_mkdir_ok fs p fs' :
  os_mkdir fs p = inr fs' ->
  exists l, locate fs p = inr l /\ fs l = None /\ fs' = fs_update fs l Dir.
Proof.
  unfold os_mkdir. destruct (locate fs p) as [e|l]; [discriminate|].
  destruct (fs l) eqn:F; [discriminate|]. intros [= <-]. eauto.
Qed.

Lemma os_mkdir_adds fs p fs' : os_mkdir fs p = inr fs' -> adds_dirs fs fs'.
Proof.
  intros Hmk. apply os_mkdir_ok in Hmk as (l & _ & Hl & ->).
  now apply adds_dirs_update.
Qed.

Lemma os_mkdir_wf fs p fs' : fs_wf fs -> os_mkdir fs p = inr fs' -> fs_wf fs'.
Proof.
  intros Hwf Hmk. apply os_mkdir_ok in Hmk as (l & Hloc & Hl & ->).
  apply fs_wf_update_dir; auto.
  destruct (locate_in_dir _ _ _ Hwf Hloc); congruence.
Qed.

Lemma os_mkdir_is_dir fs p fs' : os_mkdir fs p = inr fs' -> fs_is_dir fs' p = true.
Proof.
  intros Hmk. pose proof (os_mkdir_adds _ _ _ Hmk) as Hadd.
  apply os_mkdir_ok in Hmk as (l & Hloc & Hl & ->).
  unfold fs_is_dir, stat.
  rewrite (locate_grows _ _ _ _ (adds_dirs_grows _ _ Hadd) Hloc).
  now rewrite fs_update_same.
Qed.

Lemma mkdir_post_unchanged p fs e : mkdir_post p fs (fs, Raise e).
Proof. split; [apply adds_dirs_refl|]. split; [auto|discriminate]. Qed.

Lemma mkdir_post_made p fs fs' : os_mkdir fs p = inr fs' -> mkdir_post p fs (fs', Ok tt).
Proof.
  intros Hmk. split; [eapply os_mkdir_adds; eauto|].
  split; [intros; eapply os_mkdir_wf; eauto|]. intros _. eapply os_mkdir_is_dir; eauto.
Qed.

Lemma mkdir_post_there p fs : fs_is_dir fs p = true -> mkdir_post p fs (fs, Ok tt).
Proof. intros Hd. split; [apply adds_dirs_refl|]. split; auto. Qed.

Lemma mkdir_spec exist_ok p fs : mkdir_post p fs (mkdir exist_ok p fs).
Proof.
  unfold mkdir. destruct (os_mkdir fs p) as [[| | |]|fs'] eqn:Hmk;
    try (destruct (exist_ok && fs_is_dir fs p) eqn:C;
         [apply andb_true_iff in C as [_ C]; now apply mkdir_post_there
         |apply mkdir_post_unchanged]).
  - apply mkdir_post_unchanged.
  - now apply mkdir_post_made.
Qed.

Lemma mkdir_parents_rev_eq reversed fs :
  mkdir_parents_rev reversed fs =
  match os_mkdir fs (rev reversed) with
  | inr fs' => (fs', Ok tt)
  | inl ENOENT =>
      match reversed with
      | [] => (fs, Raise (os_exn ENOENT (rev reversed)))
      | _ :: parent_reversed =>
          (mkdir_parents_rev parent_reversed ;; mkdir true (rev reversed)) fs
      end
  | inl e =>
      if fs_is_dir fs (rev reversed) then (fs, Ok tt)
      else (fs, Raise (os_exn e (rev reversed)))
  end.
Proof. destruct reversed; reflexivity. Qed.

Lemma mkdir_parents_rev_spec reversed : forall fs,
  mkdir_post (rev reversed) fs (mkdir_parents_rev reversed fs).
Proof.
  induction reversed as [|c parent_reversed IH]; intros fs;
    rewrite mkdir_parents_rev_eq;
    destruct (os_mkdir fs _) as [[| | |]|fs'] eqn:Hmk;
    try (now apply mkdir_post_made);
    try (destruct (fs_is_dir fs _) eqn:C;
         [now apply mkdir_post_there | apply mkdir_post_unchanged]).
  - apply mkdir_post_unchanged.
  - unfold bind. specialize (IH fs).
    destruct (mkdir_parents_rev parent_reversed fs) as [fs1 [[]|e]].
    + destruct IH as (Hadd & Hwf & _).
      pose proof (mkdir_spec true (rev (c :: parent_reversed)) fs1) as Hlast.
      destruct (mkdir true (rev (c :: parent_reversed)) fs1) as [fs2 r2].
      destruct Hlast as (Hadd2 & Hwf2 & Hdir2). cbn [fst snd] in *.
      split; [eapply adds_dirs_trans; eauto|]. split; auto.
    + destruct IH as (Hadd & Hwf & _). cbn [fst snd] in *.
      split; auto. split; [auto|discriminate].
Qed.

Lemma mkdir_parents_spec p fs : mkdir_post p fs (mkdir_parents p fs).
Proof.
  unfold mkdir_parents. rewrite <- (rev_involutive p) at 1.
  apply mkdir_parents_rev_spec.
Qed.

Lemma mkdir_parents_adds p fs fs' r :
  mkdir_parents p fs = (fs', r) -> adds_dirs fs fs'.
Proof. intros Hrun. pose proof (mkdir_parents_spec p fs) as (Ha & _). now rewrite Hrun in Ha. Qed.

Lemma mkdir_parents_wf p fs fs' r :
  fs_wf fs -> mkdir_parents p fs = (fs', r) -> fs_wf fs'.
Proof.
  intros Hwf Hrun. pose proof (mkdir_parents_spec p fs) as (_ & Hw & _).
  rewrite Hrun in Hw. auto.
Qed.


(** On a directory that is already there, [mkdir] changes nothing. *)
Lemma mkdir_parents_existing fs p :
  fs_is_dir fs p = true -> mkdir_parents p fs = (fs, Ok tt).
Proof.
  intros Hd. unfold mkdir_parents. rewrite mkdir_parents_rev_eq, rev_involutive.
  rewrite Hd. unfold fs_is_dir, stat in Hd. unfold os_mkdir.
  destruct (locate fs p) as [e|l]; [discriminate|].
  destruct (fs l) as [[|]|]; try discriminate. reflexivity.
Qed.

(** *** Writing *)

Lemma write_text_ok p text fs fs' :
  write_text p text fs = (fs', Ok tt) ->
  exists l,
    locate fs p = inr l /\ fs l <> Some Dir /\
    fs' = fs_update fs l
            (File text (match fs l with Some (File _ m) => m | _ => create_mode end)).
Proof.
  unfold write_text. destruct (locate fs p) as [e|l]; [discriminate|].
  destruct (fs l) as [[|]|] eqn:F; try discriminate;
    intros [= <-]; exists l; rewrite F; repeat split; congruence.
Qed.

Lemma write_text_raise p text fs fs' e :
  write_text p text fs = (fs', Raise e) -> fs' = fs.
Proof.
  unfold write_text. destruct (locate fs p) as [e'|l]; [now intros [= <- _]|].
  destruct (fs l) as [[|]|]; try discriminate; now intros [= <- _].
Qed.

Lemma write_text_grows p text fs fs' r :
  write_text p text fs = (fs', r) -> grows fs fs'.
Proof.
  destruct r as [[]|e]; intros Hrun.
  - apply write_text_ok in Hrun as (l & _ & Hnd & ->). now apply grows_update_file.
  - apply write_text_raise in Hrun. subst. apply grows_refl.
Qed.

Lemma write_text_wf p text fs fs' r :
  fs_wf fs -> write_text p text fs = (fs', r) -> fs_wf fs'.
Proof.
  intros Hwf. destruct r as [[]|e]; intros Hrun.
  - apply write_text_ok in Hrun as (l & Hloc & Hnd & ->).
    apply fs_wf_update_file; auto.
    destruct (locate_in_dir _ _ _ Hwf Hloc); congruence.
  - apply write_text_raise in Hrun. now subst.
Qed.

Lemma chmod_cases p mode fs fs' r :
  chmod p mode fs = (fs', r) ->
  fs' = fs \/
  exists l content old,
    locate fs p = inr l /\ fs l = Some (File content old) /\
    fs' = fs_update fs l (File content mode) /\ r = Ok tt.
Proof.
  unfold chmod. destruct (locate fs p) as [e|l]; [intros [= <- _]; auto|].
  destruct (fs l) as [[content old|]|] eqn:F; intros [= <- <-]; auto.
  right. exists l, content, old. auto.
Qed.

Lemma chmod_grows p mode fs fs' r : chmod p mode fs = (fs', r) -> grows fs fs'.
Proof.
  intros Hrun. apply chmod_cases in Hrun as [->|(l & c & old & _ & F & -> & _)].
  - apply grows_refl.
  - apply grows_update_file. congruence.
Qed.

Lemma chmod_wf p mode fs fs' r :
  fs_wf fs -> chmod p mode fs = (fs', r) -> fs_wf fs'.
Proof.
  intros Hwf Hrun. apply chmod_cases in Hrun as [->|(l & c & old & _ & F & -> & _)]; auto.
  apply fs_wf_update_file; auto; [|congruence].
  apply fs_wf_parent; auto. congruence.
Qed.

End OpFacts.

(** *** Sequencing *)

Lemma for_each_app {A} (xs ys : list A) (body : A -> IO unit) fs :
  for_each (xs ++ ys) body fs =
  match for_each xs body fs with
  | (fs1, Ok _) => for_each ys body fs1
  | (fs1, Raise e) => (fs1, Raise e)
  end.
Proof.
  revert fs. induction xs as [|x xs IH]; intros fs; simpl.
  - reflexivity.
  - unfold bind. destruct (body x fs) as [fs1 [[]|e]]; auto.
Qed.

(** ** Rendering *)

Section RenderFacts.
Context `{External}.
Variables (template_dir output_dir : path) (context : dict).

Let step := render_template template_dir output_dir context.
Let out (template_name : string) : path :=
  joinpath output_dir (relative_output template_name).

(** The loop body, one outcome per line of the source. *)
Lemma render_template_cases force template_name fs :
  step force template_name fs =
  match get_template fs template_dir template_name with
  | Raise e => (fs, Raise e)
  | Ok template =>
      match mkdir_parents (parent (out template_name)) fs with
      | (fs1, Raise e) => (fs1, Raise e)
      | (fs1, Ok _) =>
          if fs_exists fs1 (out template_name) && negb force
          then (fs1, Raise (overwrite_conflict (out template_name)))
          else
            match render fs1 template context with
            | Raise e => (fs1, Raise e)
            | Ok rendered =>
                match write_text (out template_name) rendered fs1 with
                | (fs2, Raise e) => (fs2, Raise e)
                | (fs2, Ok _) =>
                    if String.eqb (suffix (out template_name)) ".sh"
                    then chmod (out template_name) 493 fs2
                    else (fs2, Ok tt)
                end
            end
      end
  end.
Proof.
  unfold step, render_template, bind, get_fs, lift, path_exists, raise, ret.
  fold (out template_name).
  destruct (get_template fs template_dir template_name) as [template|e]; auto.
  destruct (mkdir_parents (parent (out template_name)) fs) as [fs1 [[]|e]]; auto.
  destruct (fs_exists fs1 (out template_name) && negb force); auto.
  destruct (render fs1 template context) as [rendered|e]; auto.
  destruct (write_text (out template_name) rendered fs1) as [fs2 [[]|e]]; auto.
  destruct (String.eqb (suffix (out template_name)) ".sh"); auto.
Qed.

(** *** Nothing is removed, and the disk stays well formed *)

Lemma render_template_grows force template_name fs fs' r :
  step force template_name fs = (fs', r) -> grows fs fs'.
Proof.
  rewrite render_template_cases.
  destruct (get_template fs template_dir template_name) as [template|e];
    [|intros [= <- _]; apply grows_refl].
  destruct (mkdir_parents (parent (out template_name)) fs) as [fs1 r1] eqn:Hmk.
  apply mkdir_parents_adds, adds_dirs_grows in Hmk.
  destruct r1 as [[]|e]; [|intros [= <- _]; auto].
  destruct (fs_exists fs1 (out template_name) && negb force); [intros [= <- _]; auto|].
  destruct (render fs1 template context) as [rendered|e]; [|intros [= <- _]; auto].
  destruct (write_text (out template_name) rendered fs1) as [fs2 r2] eqn:Hw.
  apply write_text_grows in Hw.
  assert (H2 : grows fs fs2) by (eapply grows_trans; eauto).
  destruct r2 as [[]|e]; [|intros [= <- _]; auto].
  destruct (String.eqb (suffix (out template_name)) ".sh").
  - intros Hch. apply chmod_grows in Hch. eapply grows_trans; eauto.
  - intros [= <- _]. auto.
Qed.

Lemma render_template_wf force template_name fs fs' r :
  fs_wf fs -> step force template_name fs = (fs', r) -> fs_wf fs'.
Proof.
  intros Hwf. rewrite render_template_cases.
  destruct (get_template fs template_dir template_name) as [template|e];
    [|intros [= <- _]; auto].
  destruct (mkdir_parents (parent (out template_name)) fs) as [fs1 r1] eqn:Hmk.
  apply mkdir_parents_wf in Hmk; auto.
  destruct r1 as [[]|e]; [|intros [= <- _]; auto].
  destruct (fs_exists fs1 (out template_name) && negb force); [intros [= <- _]; auto|].
  destruct (render fs1 template context) as [rendered|e]; [|intros [= <- _]; auto].
  destruct (write_text (out template_name) rendered fs1) as [fs2 r2] eqn:Hw.
  apply write_text_wf in Hw; auto.
  destruct r2 as [[]|e]; [|intros [= <- _]; auto].
  destruct (String.eqb (suffix (out template_name)) ".sh").
  - intros Hch. eapply chmod_wf; eauto.
  - intros [= <- _]. auto.
Qed.

Lemma for_each_grows force names : forall fs fs' r,
  for_each names (step force) fs = (fs', r) -> grows fs fs'.
Proof.
  induction names as [|t rest IH]; intros fs fs' r; simpl.
  - intros [= <- _]. apply grows_refl.
  - unfold bind. destruct (step force t fs) as [fs1 [[]|e]] eqn:Hstep;
      apply render_template_grows in Hstep.
    + intros Hrest. apply IH in Hrest. eapply grows_trans; eauto.
    + intros [= <- _]. auto.
Qed.

Lemma for_each_wf force names : forall fs fs' r,
  fs_wf fs -> for_each names (step force) fs = (fs', r) -> fs_wf fs'.
Proof.
  induction names as [|t rest IH]; intros fs fs' r Hwf; simpl.
  - intros [= <- _]. auto.
  - unfold bind. destruct (step force t fs) as [fs1 [[]|e]] eqn:Hstep.
    + apply render_template_wf in Hstep; eauto.
    + apply render_template_wf in Hstep; auto. intros [= <- _]. auto.
Qed.

(** *** A completed iteration *)

(** The artifact sits at the location its path leads to once [mkdir]
    is done, with the rendered text; its mode is 0755 for a [.sh]
    suffix, else the mode of the file that was there, else the creation
    mode.  Everything else is as [mkdir] left it. *)
Lemma render_template_ok force template_name fs fs' :
  step force template_name fs = (fs', Ok tt) ->
  exists template fs1 rendered l,
    get_template fs template_dir template_name = Ok template /\
    mkdir_parents (parent (out template_name)) fs = (fs1, Ok tt) /\
    fs_exists fs1 (out template_name) && negb force = false /\
    render fs1 template context = Ok rendered /\
    locate fs1 (out template_name) = inr l /\
    fs1 l <> Some Dir /\
    forall q,
      fs' q = fs_update fs1 l
                (File rendered
                   (if String.eqb (suffix (out template_name)) ".sh" then 493%N
                    else match fs1 l with
                         | Some (File _ m) => m
                         | _ => create_mode
                         end)) q.
Proof.
  rewrite render_template_cases.
  destruct (get_template fs template_dir template_name) as [template|e]; [|discriminate].
  destruct (mkdir_parents (parent (out template_name)) fs) as [fs1 [[]|e]] eqn:Hmk;
    [|discriminate].
  destruct (fs_exists fs1 (out template_name) && negb force) eqn:Hc; [discriminate|].
  destruct (render fs1 template context) as [rendered|e] eqn:Hr; [|discriminate].
  destruct (write_text (out template_name) rendered fs1)
    as [fs2 [[]|e]] eqn:Hw; [|discriminate].
  pose proof (write_text_grows _ _ _ _ _ Hw) as Hg.
  apply write_text_ok in Hw as (l & Hloc & Hnd & ->).
  intros Hrun. exists template, fs1, rendered, l. repeat split; auto.
  destruct (String.eqb (suffix (out template_name)) ".sh").
  - unfold chmod in Hrun. rewrite (locate_grows _ _ _ _ Hg Hloc) in Hrun.
    rewrite fs_update_same in Hrun. injection Hrun as <-.
    intros q. unfold fs_update. now destruct (path_eqb l q).
  - now injection Hrun as <-.
Qed.

Lemma render_template_writes force template_name fs fs' :
  step force template_name fs = (fs', Ok tt) ->
  fs_is_file fs' (out template_name) = true.
Proof.
  intros Hrun. pose proof (render_template_ok _ _ _ _ Hrun)
    as (template & fs1 & rendered & l & _ & _ & _ & _ & Hloc & Hnd & Hfs').
  assert (Hg : grows fs1 fs').
  { intros q. rewrite Hfs'. now apply grows_update_file. }
  unfold fs_is_file, stat. rewrite (locate_grows _ _ _ _ Hg Hloc).
  now rewrite Hfs', fs_update_same.
Qed.

Lemma for_each_writes force names : forall fs fs',
  for_each names (step force) fs = (fs', Ok tt) ->
  forall t, In t names -> fs_is_file fs' (out t) = true.
Proof.
  induction names as [|t0 rest IH]; intros fs fs' Hrun t Hin; [contradiction|].
  simpl in Hrun. unfold bind in Hrun.
  destruct (step force t0 fs) as [fs1 [[]|e]] eqn:Hstep; [|discriminate].
  destruct Hin as [<-|Hin].
  - eapply stat_grows_file; [eapply for_each_grows; eauto|].
    eapply render_template_writes; eauto.
  - eapply IH; eauto.
Qed.

(** *** Output paths *)




(** *** Overwriting *)

(** When the output path is there, so is its parent: [mkdir] does
    nothing and the check sees the disk as it was. *)
Lemma render_template_conflict template_name fs template :
  fs_wf fs ->
  get_template fs template_dir template_name = Ok template ->
  fs_exists fs (out template_name) = true ->
  step false template_name fs = (fs, Raise (overwrite_conflict (out template_name))).
Proof.
  intros Hwf Hload Hex. rewrite render_template_cases, Hload.
  rewrite (mkdir_parents_existing _ _ (exists_parent_dir _ _ Hwf Hex)).
  now rewrite Hex.
Qed.

(** A conflict at some template ends the run on the disk the earlier
    templates left. *)
Lemma render_templates_conflict fs earlier template_name later fs1 template :
  fs_wf fs ->
  list_templates fs template_dir = earlier ++ template_name :: later ->
  for_each earlier (step false) fs = (fs1, Ok tt) ->
  get_template fs1 template_dir template_name = Ok template ->
  fs_exists fs1 (out template_name) = true ->
  render_templates template_dir output_dir context false fs =
  (fs1, Raise (overwrite_conflict (out template_name))).
Proof.
  intros Hwf Hlist Hearlier Hload Hex.
  unfold render_templates, bind, get_fs. rewrite Hlist.
  fold (step false). rewrite for_each_app, Hearlier.
  cbn [for_each]. unfold bind.
  rewrite (render_template_conflict _ _ template); auto.
  eapply for_each_wf; eauto.
Qed.

(** With [force], an existing file is rewritten in place. *)
Lemma render_template_overwrites fs template_name template old mode rendered :
  fs_wf fs ->
  get_template fs template_dir template_name = Ok template ->
  stat fs (out template_name) = Some (File old mode) ->
  render fs template context = Ok rendered ->
  exists fs' mode' l,
    step true template_name fs = (fs', Ok tt) /\
    stat fs' (out template_name) = Some (File rendered mode') /\
    locate fs (out template_name) = inr l /\
    forall q, q <> l -> fs' q = fs q.
Proof.
  intros Hwf Hload Hfile Hrender.
  assert (Hex : fs_exists fs (out template_name) = true).
  { unfold fs_exists. now rewrite Hfile. }
  rewrite render_template_cases, Hload.
  rewrite (mkdir_parents_existing _ _ (exists_parent_dir _ _ Hwf Hex)).
  rewrite andb_false_r, Hrender.
  unfold stat in Hfile.
  destruct (locate fs (out template_name)) as [e|l] eqn:Hloc; [discriminate|].
  unfold write_text. rewrite Hloc, Hfile.
  assert (Hg : grows fs (fs_update fs l (File rendered mode))).
  { apply grows_update_file. congruence. }
  pose proof (locate_grows _ _ _ _ Hg Hloc) as Hloc2.
  destruct (String.eqb (suffix (out template_name)) ".sh").
  - unfold chmod. rewrite Hloc2, fs_update_same.
    assert (Hg' : grows fs (fs_update (fs_update fs l (File rendered mode)) l
                              (File rendered 493))).
    { eapply grows_trans; [exact Hg|]. apply grows_update_file.
      rewrite fs_update_same. discriminate. }
    eexists _, _, l. split; [reflexivity|]. split; [|split; [reflexivity|]].
    + unfold stat. rewrite (locate_grows _ _ _ _ Hg' Hloc). apply fs_update_same.
    + intros q Hq. now rewrite !fs_update_other by congruence.
  - eexists _, _, l. split; [reflexivity|]. split; [|split; [reflexivity|]].
    + unfold stat. rewrite Hloc2. apply fs_update_same.
    + intros q Hq. now rewrite fs_update_other by congruence.
Qed.

(** A template that does not load ends the run with the engine's
    error, on the disk the earlier templates left: the iteration has
    made no directory and has not looked at the output path. *)
Lemma render_templates_load_failure force fs earlier template_name later fs1 e :
  list_templates fs template_dir = earlier ++ template_name :: later ->
  for_each earlier (step force) fs = (fs1, Ok tt) ->
  get_template fs1 template_dir template_name = Raise e ->
  render_templates template_dir output_dir context force fs = (fs1, Raise e).
Proof.
  intros Hlist Hearlier Hget.
  unfold render_templates, bind, get_fs. rewrite Hlist, for_each_app.
  fold step. rewrite Hearlier. cbn [for_each]. unfold bind.
  unfold step. now rewrite render_template_cases, Hget.
Qed.

(** C3, amended.  Without [force]: when the run reaches a template that
    loads and whose output path exists, [render_templates] raises the
    already-exists error naming that path, and the disk is the one the
    earlier templates left: the existing file is untouched, their
    artifacts are there, no later template has run.  With [force]: a
    template that loads and renders replaces the contents of the
    existing file and touches nothing else.  With or without [force]:
    when the run reaches a template that does not load, it ends with
    the engine's error, whether the output path exists or not, and the
    disk is the one the earlier templates left; the overwrite check is
    not reached. *)
Theorem overwrite_policy :
  (forall fs earlier template_name later fs1 template,
      fs_wf fs ->
      list_templates fs template_dir = earlier ++ template_name :: later ->
      for_each earlier (render_template template_dir output_dir context false) fs
        = (fs1, Ok tt) ->
      get_template fs1 template_dir template_name = Ok template ->
      fs_exists fs1 (joinpath output_dir (relative_output template_name)) = true ->
      render_templates template_dir output_dir context false fs =
      (fs1, Raise (FileExistsError
                     ("Refusing to overwrite existing artifact: "
                      +++ path_str (joinpath output_dir (relative_output template_name))
                      +++ " (use --force)")))) /\
  (forall fs template_name template old mode rendered,
      fs_wf fs ->
      get_template fs template_dir template_name = Ok template ->
      stat fs (joinpath output_dir (relative_output template_name))
        = Some (File old mode) ->
      render fs template context = Ok rendered ->
      exists fs' mode' l,
        render_template template_dir output_dir context true template_name fs
          = (fs', Ok tt) /\
        stat fs' (joinpath output_dir (relative_output template_name))
          = Some (File rendered mode') /\
        locate fs (joinpath output_dir (relative_output template_name)) = inr l /\
        forall q, q <> l -> fs' q = fs q) /\
  (forall force fs earlier template_name later fs1 e,
      list_templates fs template_dir = earlier ++ template_name :: later ->
      for_each earlier (render_template template_dir output_dir context force) fs
        = (fs1, Ok tt) ->
      get_template fs1 template_dir template_name = Raise e ->
      render_templates template_dir output_dir context force fs = (fs1, Raise e)).
Proof.
  split; [|split].
  - intros. eapply render_templates_conflict; eauto.
  - intros. eapply render_template_overwrites; eauto.
  - intros. eapply render_templates_load_failure; eauto.
Qed.

(** *** Permissions *)

(** C5, amended.  After an iteration that completes, the artifact is a
    file at the location its path leads to; when its file name has the
    extension [.sh] (something, then [.sh]) its mode is 0755; otherwise
    its mode is the one the file at that location had before the
    iteration, or the creation mode when there was no file. *)
Theorem executable_bit force fs template_name fs' :
  render_template template_dir output_dir context force template_name fs = (fs', Ok tt) ->
  exists l text mode,
    locate fs' (joinpath output_dir (relative_output template_name)) = inr l /\
    fs' l = Some (File text mode) /\
    (has_sh_extension (name (joinpath output_dir (relative_output template_name))) ->
     mode = 493%N) /\
    (~ has_sh_extension (name (joinpath output_dir (relative_output template_name))) ->
     mode = match fs l with
            | Some (File _ old) => old
            | _ => create_mode
            end).
Proof.
  intros Hrun.
  apply render_template_ok in Hrun
    as (template & fs1 & rendered & l & _ & Hmk & _ & _ & Hloc & Hnd & Hfs').
  fold (out template_name) in *.
  assert (Hg : grows fs1 fs').
  { intros q. rewrite Hfs'. now apply grows_update_file. }
  assert (Hold : fs1 l = fs l).
  { destruct (mkdir_parents_adds _ _ _ _ Hmk l) as [|[_ Hd]]; congruence. }
  eexists l, rendered, _. split; [exact (locate_grows _ _ _ _ Hg Hloc)|].
  split; [rewrite Hfs'; apply fs_update_same|]. split; intros Hext.
  - apply suffix_sh in Hext. now rewrite Hext.
  - destruct (String.eqb (suffix (out template_name)) ".sh") eqn:E.
    + apply String.eqb_eq in E. apply suffix_sh in E. contradiction.
    + now rewrite Hold.
Qed.

(** *** Directories *)


End RenderFacts.
(** ** [deep_merge] on the heap: nothing that existed is written *)

Module HeapFacts.
Local Abbreviation tree_merge := deep_merge.
Local Abbreviation tree_merge_value := deep_merge_value.
Local Abbreviation tree_merge_item := merge_item.
Local Abbreviation tree_is_dict := isinstance_dict.
Import Heap.

Lemma length_update h : forall l o, List.length (update h l o) = List.length h.
Proof. induction h as [|x h IH]; intros [|l] o; simpl; auto. Qed.

Lemma nth_update_other h : forall l o l',
  l' <> l -> nth_error (update h l o) l' = nth_error h l'.
Proof.
  induction h as [|x h IH]; intros [|l] o [|l'] Hne; simpl; auto; congruence.
Qed.

Lemma nth_update_same h : forall l o,
  l < List.length h -> nth_error (update h l o) l = Some o.
Proof.
  induction h as [|x h IH]; intros [|l] o Hl; simpl in *; try lia; auto.
  all: apply IH; lia.
Qed.

Lemma length_setitem h m key v : List.length (setitem h m key v) = List.length h.
Proof.
  unfold setitem. destruct (nth_error h m) as [[|]|]; auto using length_update.
Qed.

Lemma nth_setitem_other h m key v l :
  l <> m -> nth_error (setitem h m key v) l = nth_error h l.
Proof.
  intros Hne. unfold setitem.
  destruct (nth_error h m) as [[|]|]; auto using nth_update_other.
Qed.


Lemma extends_but_refl m h : extends_but m h h.
Proof. split; auto. Qed.

Lemma extends_but_trans m h1 h2 h3 :
  extends_but m h1 h2 -> extends_but m h2 h3 -> extends_but m h1 h3.
Proof.
  intros [L1 A1] [L2 A2]. split; [lia|].
  intros l Hne Hl. rewrite A2, A1; auto. lia.
Qed.

Lemma extends_but_setitem m h key v : extends_but m h (setitem h m key v).
Proof.
  split.
  - rewrite length_setitem. lia.
  - intros l Hne _. now apply nth_setitem_other.
Qed.

Lemma merge_item_frame rec m h item h' :
  frames rec -> merge_item rec m h item = Ok h' -> extends_but m h h'.
Proof.
  intros Hrec. unfold merge_item. destruct item as [key v].
  destruct (nth_error h m) as [[items|]|]; try discriminate.
  destruct (dict_get key items) as [[| | | | |existing]|], v as [| | | | |incoming];
    try (intros [= <-]; apply extends_but_setitem).
  destruct (isinstance_dict h (HRef existing) && isinstance_dict h (HRef incoming));
    [|intros [= <-]; apply extends_but_setitem].
  destruct (rec h existing incoming) as [[h1 r]|e] eqn:Hcall; [|discriminate].
  intros [= <-]. apply Hrec in Hcall as [L A].
  eapply extends_but_trans; [|apply extends_but_setitem].
  split; auto.
Qed.

Lemma merge_items_frame rec m items : forall h h',
  frames rec -> merge_items rec m items h = Ok h' -> extends_but m h h'.
Proof.
  induction items as [|item rest IH]; intros h h' Hrec; simpl.
  - intros [= <-]. apply extends_but_refl.
  - destruct (merge_item rec m h item) as [h1|e] eqn:Hitem; [|discriminate].
    intros Hrest. eapply extends_but_trans.
    + eapply merge_item_frame; eauto.
    + eapply IH; eauto.
Qed.

Lemma deep_merge_ok depth h base override h' merged :
  deep_merge (S depth) h base override = Ok (h', merged) ->
  exists base_items override_items,
    nth_error h base = Some (ODict base_items) /\
    nth_error h override = Some (ODict override_items) /\
    merged = List.length h /\
    merge_items (deep_merge depth) merged override_items (h ++ [ODict base_items])
      = Ok h'.
Proof.
  simpl. destruct (nth_error h base) as [[base_items|]|]; try discriminate.
  destruct (nth_error h override) as [[override_items|]|]; try discriminate.
  destruct (merge_items _ _ _ _) as [h2|e] eqn:Hloop; [|discriminate].
  intros [= <- <-]. eauto 6.
Qed.

Lemma deep_merge_frames depth : frames (deep_merge depth).
Proof.
  induction depth as [|depth IH]; intros h a b h' r Hrun; [discriminate|].
  apply deep_merge_ok in Hrun as (bi & oi & Ha & Hb & -> & Hloop).
  apply merge_items_frame in Hloop as [L A]; auto.
  rewrite length_app in L. simpl in L. split; [lia|].
  intros l Hl. rewrite A.
  - now apply nth_error_app1.
  - lia.
  - rewrite length_app. simpl. lia.
Qed.

(** *** Snapshots of what existed *)

Lemma heap_closed_lookup h l o :
  heap_closed h = true -> nth_error h l = Some o ->
  object_closed (List.length h) o = true.
Proof.
  unfold heap_closed. rewrite forallb_forall. intros Hall Hl.
  apply Hall. eapply nth_error_In; eauto.
Qed.

Lemma all_some_map_ext {A B} (f g : A -> option B) (l : list A) :
  (forall x, In x l -> f x = g x) -> all_some (map f l) = all_some (map g l).
Proof. intros Hext. f_equal. now apply map_ext_in. Qed.

(** A closed heap that only grows shows the same tree under every value
    it already held, to every depth. *)
Lemma snapshot_extends h h' :
  heap_closed h = true -> extends h h' ->
  forall depth v, value_closed (List.length h) v = true ->
                  snapshot depth h' v = snapshot depth h v.
Proof.
  intros Hclosed [_ Hagree]. unfold snapshot.
  induction depth as [|depth IH]; intros [| | | | |l] Hv; try reflexivity.
  simpl in Hv. apply Nat.ltb_lt in Hv. cbn [snapshot_in].
  rewrite (Hagree l Hv).
  destruct (nth_error h l) as [[items|elems]|] eqn:Hl; auto.
  - apply heap_closed_lookup in Hl; auto. simpl in Hl.
    rewrite forallb_forall in Hl.
    f_equal. apply all_some_map_ext. intros item Hin. now rewrite IH by auto.
  - apply heap_closed_lookup in Hl; auto. simpl in Hl.
    rewrite forallb_forall in Hl.
    f_equal. apply all_some_map_ext. intros v Hin. now rewrite IH by auto.
Qed.

Lemma merge_items_keeps_dict rec m items : forall h h',
  merge_items rec m items h = Ok h' ->
  (exists d, nth_error h m = Some (ODict d)) ->
  frames rec ->
  exists d', nth_error h' m = Some (ODict d').
Proof.
  induction items as [|[key v] rest IH]; intros h h'; cbn [merge_items].
  - intros [= <-]. auto.
  - destruct (merge_item rec m h (key, v)) as [h1|e] eqn:Hitem; [|discriminate].
    intros Hrest [d Hd] Hrec. apply (IH h1 h'); auto.
    assert (Hm : m < List.length h) by (apply nth_error_Some; congruence).
    assert (Hset : forall g w, m < List.length g ->
                     (exists d0, nth_error g m = Some (ODict d0)) ->
                     exists d1, nth_error (setitem g m key w) m = Some (ODict d1)).
    { intros g w Hg [d0 Hd0]. unfold setitem. rewrite Hd0.
      rewrite nth_update_same by exact Hg. eauto. }
    unfold merge_item in Hitem. rewrite Hd in Hitem.
    destruct (dict_get key d) as [[| | | | |existing]|], v as [| | | | |incoming];
      try (injection Hitem as <-; apply Hset; eauto).
    destruct (isinstance_dict h (HRef existing) && isinstance_dict h (HRef incoming));
      [|injection Hitem as <-; apply Hset; eauto].
    destruct (rec h existing incoming) as [[h2 r]|e] eqn:Hcall; [|discriminate].
    injection Hitem as <-. apply Hrec in Hcall as [L A].
    apply Hset; [lia|]. exists d. rewrite A; auto.
Qed.

(** A call that returns has written to no object that existed before
    it, and returns a dict at a location that was free. *)
Lemma deep_merge_frame depth h base override h' merged :
  deep_merge depth h base override = Ok (h', merged) ->
  (forall l, l < List.length h -> nth_error h' l = nth_error h l) /\
  (heap_closed h = true ->
   forall n, snapshot n h' (HRef base) = snapshot n h (HRef base) /\
             snapshot n h' (HRef override) = snapshot n h (HRef override)) /\
  nth_error h merged = None /\
  merged <> base /\ merged <> override /\
  exists items, nth_error h' merged = Some (ODict items).
Proof.
  intros Hrun. pose proof (deep_merge_frames _ _ _ _ _ _ Hrun) as Hext.
  destruct depth as [|depth]; [discriminate|].
  apply deep_merge_ok in Hrun as (bi & oi & Ha & Hb & -> & Hloop).
  assert (Hla : base < List.length h) by (apply nth_error_Some; congruence).
  assert (Hlb : override < List.length h) by (apply nth_error_Some; congruence).
  split; [apply Hext|]. split; [|split; [|split; [|split]]].
  - intros Hclosed n. split; apply snapshot_extends; auto;
      simpl; now apply Nat.ltb_lt.
  - apply nth_error_None. lia.
  - lia.
  - lia.
  - eapply merge_items_keeps_dict; eauto using deep_merge_frames.
    exists bi. rewrite nth_error_app2 by lia. now rewrite Nat.sub_diag.
Qed.

(** *** The heap merge computes [deep_merge] *)

Lemma snapshot_in_ref dom depth h l :
  snapshot_in dom (S depth) h (HRef l) =
  if dom l then
    match nth_error h l with
    | Some (ODict items) => option_map VDict (snapshot_items dom depth h items)
    | Some (OList elems) =>
        option_map VList (all_some (map (snapshot_in dom depth h) elems))
    | None => None
    end
  else None.
Proof. reflexivity. Qed.

Lemma snapshot_items_cons dom depth h key v rest T :
  snapshot_items dom depth h ((key, v) :: rest) = Some T <->
  exists t Trest,
    snapshot_in dom depth h v = Some t /\
    snapshot_items dom depth h rest = Some Trest /\
    T = (key, t) :: Trest.
Proof.
  unfold snapshot_items. cbn [map all_some fst snd].
  destruct (snapshot_in dom depth h v) as [t|]; cbn [option_map].
  - destruct (all_some _) as [Trest|]; cbn [option_map]; split.
    + intros [= <-]. eauto.
    + intros (t' & Tr & [= <-] & [= <-] & ->). reflexivity.
    + discriminate.
    + intros (t' & Tr & _ & Hn & _). discriminate.
  - split; [discriminate|]. intros (t' & Tr & Hn & _). discriminate.
Qed.

Lemma snapshot_items_nil dom depth h : snapshot_items dom depth h [] = Some [].
Proof. reflexivity. Qed.

(** Snapshots go through to a larger domain. *)
Lemma all_some_map_mono {A B} (f g : A -> option B) (l : list A) ts :
  (forall x t, In x l -> f x = Some t -> g x = Some t) ->
  all_some (map f l) = Some ts -> all_some (map g l) = Some ts.
Proof.
  revert ts. induction l as [|x l IH]; intros ts Hfg; simpl; auto.
  destruct (f x) as [t|] eqn:Hf; [|discriminate].
  rewrite (Hfg x t (or_introl eq_refl) Hf).
  destruct (all_some (map f l)) as [ts'|]; [|discriminate].
  rewrite (IH ts'); auto. intros y t' Hin. apply Hfg. now right.
Qed.

Lemma snapshot_in_mono dom dom' h h' :
  (forall l, dom l = true -> dom' l = true /\ nth_error h' l = nth_error h l) ->
  forall depth v t,
    snapshot_in dom depth h v = Some t -> snapshot_in dom' depth h' v = Some t.
Proof.
  intros Hdom. induction depth as [|depth IH]; intros [| | | | |l] t; auto;
    try discriminate.
  rewrite !snapshot_in_ref. destruct (dom l) eqn:Hl; [|discriminate].
  destruct (Hdom l Hl) as [-> ->].
  destruct (nth_error h l) as [[items|elems]|]; auto.
  - unfold snapshot_items.
    destruct (all_some _) as [ts|] eqn:Hall; [|discriminate].
    erewrite all_some_map_mono; [eauto| |exact Hall].
    intros [k v] t' _. cbn [fst snd].
    destruct (snapshot_in dom depth h v) as [tv|] eqn:Hv; [|discriminate].
    now rewrite (IH _ _ Hv).
  - destruct (all_some _) as [ts|] eqn:Hall; [|discriminate].
    erewrite all_some_map_mono; [eauto| |exact Hall].
    intros v t' _. apply IH.
Qed.

Lemma snapshot_items_mono dom dom' h h' depth items T :
  (forall l, dom l = true -> dom' l = true /\ nth_error h' l = nth_error h l) ->
  snapshot_items dom depth h items = Some T ->
  snapshot_items dom' depth h' items = Some T.
Proof.
  intros Hdom. unfold snapshot_items. apply all_some_map_mono.
  intros [k v] t _. cbn [fst snd].
  destruct (snapshot_in dom depth h v) as [tv|] eqn:Hv; [|discriminate].
  now rewrite (snapshot_in_mono dom dom' h h' Hdom _ _ _ Hv).
Qed.

(** A snapshot reads allocated objects only. *)
Lemma snapshot_in_allocated dom h :
  forall depth v t,
    snapshot_in dom depth h v = Some t ->
    snapshot_in (fun l => dom l && (l <? List.length h)%nat) depth h v = Some t.
Proof.
  induction depth as [|depth IH]; intros [| | | | |l] t; auto; try discriminate.
  rewrite !snapshot_in_ref. destruct (dom l) eqn:Hl; [|discriminate].
  destruct (nth_error h l) as [o|] eqn:Hn; [|discriminate].
  assert (Hlt : (l <? List.length h)%nat = true).
  { apply Nat.ltb_lt. apply nth_error_Some. congruence. }
  rewrite Hlt. cbn [andb].
  destruct o as [items|elems].
  - unfold snapshot_items.
    destruct (all_some _) as [ts|] eqn:Hall; [|discriminate].
    erewrite all_some_map_mono; [eauto| |exact Hall].
    intros [k v] t' _. cbn [fst snd].
    destruct (snapshot_in dom depth h v) as [tv|] eqn:Hv; [|discriminate].
    now rewrite (IH _ _ Hv).
  - destruct (all_some _) as [ts|] eqn:Hall; [|discriminate].
    erewrite all_some_map_mono; [eauto| |exact Hall].
    intros v t' _. apply IH.
Qed.

(** A write to [m] is not seen by a snapshot that stays out of [m]. *)
Lemma snapshot_in_survives dom m h h' depth v t :
  extends_but m h h' -> dom m = false ->
  snapshot_in dom depth h v = Some t -> snapshot_in dom depth h' v = Some t.
Proof.
  intros [_ Hagree] Hm Hs. apply snapshot_in_allocated in Hs.
  eapply snapshot_in_mono; [|exact Hs].
  intros l Hl. apply andb_true_iff in Hl as [Hd Hlt]. apply Nat.ltb_lt in Hlt.
  split; auto. apply Hagree; auto. congruence.
Qed.

Lemma snapshot_items_survives dom m h h' depth items T :
  extends_but m h h' -> dom m = false ->
  snapshot_items dom depth h items = Some T ->
  snapshot_items dom depth h' items = Some T.
Proof.
  intros Hext Hm. unfold snapshot_items. apply all_some_map_mono.
  intros [k v] t _. cbn [fst snd].
  destruct (snapshot_in dom depth h v) as [tv|] eqn:Hv; [|discriminate].
  now rewrite (snapshot_in_survives _ _ _ _ _ _ _ Hext Hm Hv).
Qed.

Lemma snapshot_isinstance dom depth h v t :
  snapshot_in dom depth h v = Some t ->
  isinstance_dict h v = tree_is_dict t.
Proof.
  destruct v as [| | | | |l]; try (destruct depth; intros [= <-]; reflexivity).
  destruct depth as [|depth]; [discriminate|].
  rewrite snapshot_in_ref. cbn [isinstance_dict].
  destruct (dom l); [|discriminate].
  destruct (nth_error h l) as [[items|elems]|]; [| |discriminate].
  - destruct (snapshot_items _ _ _ _); intros [= <-]. reflexivity.
  - destruct (all_some _); intros [= <-]. reflexivity.
Qed.

Lemma snapshot_items_get dom depth h key : forall items M,
  snapshot_items dom depth h items = Some M ->
  dict_get key M =
  match dict_get key items with
  | Some v => snapshot_in dom depth h v
  | None => None
  end.
Proof.
  induction items as [|[k v] rest IH]; intros M Hs.
  - injection Hs as <-. reflexivity.
  - apply snapshot_items_cons in Hs as (t & Tr & Hv & Hrest & ->).
    cbn [dict_get]. destruct (String.eqb k key); auto.
Qed.

Lemma snapshot_items_get_some dom depth h key v : forall items M,
  snapshot_items dom depth h items = Some M ->
  dict_get key items = Some v ->
  exists t, snapshot_in dom depth h v = Some t /\ dict_get key M = Some t.
Proof.
  induction items as [|[k w] rest IH]; intros M Hs; [discriminate|].
  apply snapshot_items_cons in Hs as (t & Tr & Hw & Hrest & ->).
  cbn [dict_get]. destruct (String.eqb k key); eauto.
  intros [= <-]. eauto.
Qed.

Lemma snapshot_items_set dom depth h key v t : forall items M,
  snapshot_items dom depth h items = Some M ->
  snapshot_in dom depth h v = Some t ->
  snapshot_items dom depth h (dict_set key v items) = Some (dict_set key t M).
Proof.
  induction items as [|[k w] rest IH]; intros M Hs Hv.
  - injection Hs as <-. cbn [dict_set]. apply snapshot_items_cons.
    exists t, []. auto using snapshot_items_nil.
  - apply snapshot_items_cons in Hs as (tw & Tr & Hw & Hrest & ->).
    cbn [dict_set]. destruct (String.eqb k key).
    + apply snapshot_items_cons. eauto.
    + apply snapshot_items_cons. eauto 6.
Qed.

Lemma nth_setitem_same h m key v items :
  nth_error h m = Some (ODict items) ->
  nth_error (setitem h m key v) m = Some (ODict (dict_set key v items)).
Proof.
  intros Hm. unfold setitem. rewrite Hm. apply nth_update_same.
  apply nth_error_Some. congruence.
Qed.

(** The two ways an iteration can go. *)
Lemma merge_item_assign rec m h key v items :
  nth_error h m = Some (ODict items) ->
  match dict_get key items with
  | Some existing => isinstance_dict h existing && isinstance_dict h v
  | None => false
  end = false ->
  merge_item rec m h (key, v) = Ok (setitem h m key v).
Proof.
  intros Hm Hcond. unfold merge_item. rewrite Hm.
  destruct (dict_get key items) as [[| | | | |e]|]; try reflexivity.
  destruct v as [| | | | |o]; try reflexivity.
  now rewrite Hcond.
Qed.

Lemma merge_item_recurse rec m h key existing v items :
  nth_error h m = Some (ODict items) ->
  dict_get key items = Some existing ->
  isinstance_dict h existing = true -> isinstance_dict h v = true ->
  exists e o,
    existing = HRef e /\ v = HRef o /\
    merge_item rec m h (key, v) =
    match rec h e o with
    | Ok (h', r) => Ok (setitem h' m key (HRef r))
    | Raise ex => Raise ex
    end.
Proof.
  intros Hm Hget He Hv.
  destruct existing as [| | | | |e]; try discriminate.
  destruct v as [| | | | |o]; try discriminate.
  exists e, o. repeat split. unfold merge_item. now rewrite Hm, Hget, He, Hv.
Qed.

Section Loop.
Variables (depth : nat) (dom : loc -> bool) (m : loc).
Hypothesis IH : refines_at depth.
Hypothesis dom_below : forall l, dom l = true -> l < m.

Let dom' : loc -> bool := fun l => dom l || (m <? l)%nat.

Lemma dom'_m : dom' m = false.
Proof.
  unfold dom'. rewrite Nat.ltb_irrefl, orb_false_r.
  destruct (dom m) eqn:E; auto. apply dom_below in E. lia.
Qed.

Lemma merge_item_refines h items M key v t :
  nth_error h m = Some (ODict items) ->
  snapshot_items dom' depth h items = Some M ->
  snapshot_in dom' depth h v = Some t ->
  exists h1 items1,
    merge_item (deep_merge depth) m h (key, v) = Ok h1 /\
    extends_but m h h1 /\
    nth_error h1 m = Some (ODict items1) /\
    snapshot_items dom' depth h1 items1 =
    Some (dict_set key (stored_value (dict_get key M) t) M).
Proof.
  intros Hm HM Hv.
  assert (Hlt : m < List.length h) by (apply nth_error_Some; congruence).
  pose proof (snapshot_items_get _ _ _ key _ _ HM) as Hget.
  (* the plain assignment, whenever the heap and the tree both take it *)
  assert (Hassign :
            merge_item (deep_merge depth) m h (key, v) = Ok (setitem h m key v) ->
            stored_value (dict_get key M) t = t ->
            exists h1 items1,
              merge_item (deep_merge depth) m h (key, v) = Ok h1 /\
              extends_but m h h1 /\
              nth_error h1 m = Some (ODict items1) /\
              snapshot_items dom' depth h1 items1 =
              Some (dict_set key (stored_value (dict_get key M) t) M)).
  { intros Hstep ->. exists (setitem h m key v), (dict_set key v items).
    split; [exact Hstep|]. split; [apply extends_but_setitem|].
    split; [now apply nth_setitem_same|].
    apply snapshot_items_set.
    - eapply snapshot_items_survives; eauto using extends_but_setitem, dom'_m.
    - eapply snapshot_in_survives; eauto using extends_but_setitem, dom'_m. }
  destruct (dict_get key items) as [existing|] eqn:Hex.
  - pose proof (snapshot_isinstance _ _ _ _ _ Hv) as Hiv.
    destruct (snapshot_items_get_some _ _ _ _ _ _ _ HM Hex) as (te & Hte & HgM).
    rewrite HgM in *. clear Hget. rename Hte into Hget.
    pose proof (snapshot_isinstance _ _ _ _ _ Hget) as Hie.
    destruct (isinstance_dict h existing && isinstance_dict h v) eqn:Hcond.
    + (* both are dicts: recurse *)
      apply andb_true_iff in Hcond as [He Hvd].
      destruct (merge_item_recurse (deep_merge depth) m h key existing v items
                  Hm Hex He Hvd) as (e & o & -> & -> & Hstep).
      rewrite He in Hie. rewrite Hvd in Hiv.
      destruct te as [| | | | | |E]; try discriminate.
      destruct t as [| | | | | |O]; try discriminate.
      apply snapshot_in_allocated in Hget, Hv.
      destruct (IH (fun l => dom' l && (l <? List.length h)%nat) h e o E O)
        as (h2 & Hcall & Hsnap); auto.
      { intros l Hl. apply andb_true_iff in Hl as [_ Hl]. now apply Nat.ltb_lt. }
      pose proof (deep_merge_frames _ _ _ _ _ _ Hcall) as [Hlen Hagree].
      rewrite Hcall in Hstep.
      assert (Hm2 : nth_error h2 m = Some (ODict items)) by (rewrite Hagree; auto).
      assert (Hext : extends_but m h (setitem h2 m key (HRef (List.length h)))).
      { eapply extends_but_trans; [|apply extends_but_setitem]. split; auto. }
      exists (setitem h2 m key (HRef (List.length h))),
             (dict_set key (HRef (List.length h)) items).
      split; [exact Hstep|]. split; [exact Hext|].
      split; [now apply nth_setitem_same|].
      cbn [stored_value tree_is_dict]. apply snapshot_items_set.
      * eapply snapshot_items_survives; eauto using dom'_m.
      * eapply snapshot_in_survives;
          [apply extends_but_setitem | apply dom'_m |].
        eapply snapshot_in_mono; [|exact Hsnap].
        intros l Hl. split; auto. unfold dom' in *.
        apply orb_true_iff in Hl as [Hl|Hl].
        -- now apply andb_true_iff in Hl as [Hl _].
        -- apply Nat.leb_le in Hl. apply orb_true_iff. right.
           apply Nat.ltb_lt. lia.
    + (* one of them is not a dict: assign *)
      apply Hassign.
      * eapply merge_item_assign; eauto. now rewrite Hex.
      * rewrite Hie, Hiv in Hcond. unfold stored_value.
        destruct te; auto. cbn [tree_is_dict andb] in Hcond. now rewrite Hcond.
  - (* a new key: assign *)
    apply Hassign.
    + eapply merge_item_assign; eauto. now rewrite Hex.
    + rewrite Hget. reflexivity.
Qed.

Lemma merge_items_refines : forall todo T h items M,
  nth_error h m = Some (ODict items) ->
  snapshot_items dom' depth h items = Some M ->
  snapshot_items dom' depth h todo = Some T ->
  exists h' items',
    merge_items (deep_merge depth) m todo h = Ok h' /\
    extends_but m h h' /\
    nth_error h' m = Some (ODict items') /\
    snapshot_items dom' depth h' items' =
    Some (fold_left (tree_merge_item tree_merge_value) T M).
Proof.
  induction todo as [|[key v] rest IHrest]; intros T h items M Hm HM HT.
  - injection HT as <-. exists h, items. repeat split; auto.
  - apply snapshot_items_cons in HT as (t & Tr & Hv & Hrest & ->).
    destruct (merge_item_refines h items M key v t Hm HM Hv)
      as (h1 & items1 & Hstep & Hext1 & Hm1 & HM1).
    destruct (IHrest Tr h1 items1 _ Hm1 HM1) as (h' & items' & Hloop & Hext' & Hm' & HM').
    { eapply snapshot_items_survives; eauto using dom'_m. }
    exists h', items'. cbn [merge_items fold_left]. rewrite Hstep.
    split; [exact Hloop|]. split; [eapply extends_but_trans; eauto|].
    split; [exact Hm'|]. now rewrite merge_item_stored.
Qed.

End Loop.

Lemma deep_merge_refines_at depth : refines_at depth.
Proof.
  induction depth as [|depth IH]; intros dom h a b A B Hdom Ha Hb; [discriminate|].
  rewrite snapshot_in_ref in Ha, Hb.
  destruct (dom a); [|discriminate]. destruct (dom b); [|discriminate].
  destruct (nth_error h a) as [[ai|]|] eqn:Hna; try discriminate.
  2: { destruct (all_some _); discriminate. }
  destruct (nth_error h b) as [[bi|]|] eqn:Hnb; try discriminate.
  2: { destruct (all_some _); discriminate. }
  destruct (snapshot_items dom depth h ai) as [A'|] eqn:HA; [|discriminate].
  destruct (snapshot_items dom depth h bi) as [B'|] eqn:HB; [|discriminate].
  injection Ha as ->. injection Hb as ->.
  assert (Hgrow : forall l, dom l = true ->
            (dom l || (List.length h <? l)%nat) = true /\
            nth_error (h ++ [ODict ai]) l = nth_error h l).
  { intros l Hl. rewrite Hl. split; auto. apply nth_error_app1. auto. }
  destruct (merge_items_refines depth dom (List.length h) IH Hdom
              bi B (h ++ [ODict ai]) ai A)
    as (h' & items' & Hloop & Hext & Hm' & HM').
  { rewrite nth_error_app2 by lia. now rewrite Nat.sub_diag. }
  { eapply snapshot_items_mono; eauto. }
  { eapply snapshot_items_mono; eauto. }
  exists h'. split.
  - cbn [deep_merge]. rewrite Hna, Hnb. unfold alloc. now rewrite Hloop.
  - rewrite snapshot_in_ref, Nat.leb_refl, orb_true_r, Hm'.
    erewrite snapshot_items_mono; [reflexivity| |exact HM'].
    intros l Hl. split; auto.
    apply orb_true_iff in Hl as [Hl|Hl]; apply orb_true_iff; auto.
    right. apply Nat.leb_le. apply Nat.ltb_lt in Hl. lia.
Qed.

(** Whenever [base] and [override] stand for trees within [depth], the
    heap merge returns, and the dict it returns stands for the merge of
    the two trees. *)
Lemma deep_merge_refines depth h base override tree_base tree_override :
  snapshot depth h (HRef base) = Some (VDict tree_base) ->
  snapshot depth h (HRef override) = Some (VDict tree_override) ->
  exists h',
    deep_merge depth h base override = Ok (h', List.length h) /\
    snapshot depth h' (HRef (List.length h))
    = Some (VDict (tree_merge tree_base tree_override)).
Proof.
  unfold snapshot. intros Ha Hb.
  apply snapshot_in_allocated in Ha, Hb.
  destruct (deep_merge_refines_at depth _ h base override _ _
              (fun l Hl => proj1 (Nat.ltb_lt _ _) (proj2 (proj1 (andb_true_iff _ _) Hl)))
              Ha Hb) as (h' & Hrun & Hsnap).
  exists h'. split; auto.
  eapply snapshot_in_mono; [|exact Hsnap]. auto.
Qed.

(** C2. When [base] and [override] stand for configuration trees, the
    call returns a dict standing for their merge, at a location that
    was not allocated before, so the result is a new object and neither
    [base] nor [override]; every object of the old heap is as it was;
    and [base] and [override] snapshot to the same trees as before the
    call, to every depth. *)
Theorem deep_merge_leaves_inputs depth h base override tree_base tree_override :
  heap_closed h = true ->
  snapshot depth h (HRef base) = Some (VDict tree_base) ->
  snapshot depth h (HRef override) = Some (VDict tree_override) ->
  exists h' merged,
    deep_merge depth h base override = Ok (h', merged) /\
    snapshot depth h' (HRef merged) = Some (VDict (tree_merge tree_base tree_override)) /\
    (forall l, l < List.length h -> nth_error h' l = nth_error h l) /\
    (forall n, snapshot n h' (HRef base) = snapshot n h (HRef base) /\
               snapshot n h' (HRef override) = snapshot n h (HRef override)) /\
    nth_error h merged = None /\
    merged <> base /\ merged <> override.
Proof.
  intros Hclosed Ha Hb.
  destruct (deep_merge_refines _ _ _ _ _ _ Ha Hb) as (h' & Hrun & Hsnap).
  destruct (deep_merge_frame _ _ _ _ _ _ Hrun) as (Hold & Hsame & Hnew & Hna & Hnb & _).
  exists h', (List.length h). repeat split; auto; now apply Hsame.
Qed.

End HeapFacts.


(** ** Directories made before the overwrite check *)

Lemma empty_fs_root_only l c : empty_fs (l ++ [c]) = None.
Proof. unfold empty_fs. destruct (l ++ [c]) eqn:E; auto. now apply app_eq_nil in E as [_ E]. Qed.

(** The example disks are well formed for a process working in
    [/work]. *)
Lemma work_fs_wf names :
  @fs_wf (ex_external names) (fs_update empty_fs ["work"] Dir).
Proof.
  repeat split.
  - intros l c Hex. unfold fs_update in *.
    destruct (path_eqb ["work"] (l ++ [c])) eqn:E.
    + apply path_eqb_eq in E. destruct l as [|a [|b l]]; try discriminate.
      reflexivity.
    + exfalso. apply Hex. apply empty_fs_root_only.
Qed.

Lemma ex_fs_wf names : @fs_wf (ex_external names) ex_fs.
Proof.
  unfold ex_fs.
  do 7 first [ apply fs_wf_update_dir; [|reflexivity]
             | apply fs_wf_update_file; [|reflexivity|discriminate] ].
  apply work_fs_wf.
Qed.

Lemma ex_fs_conflict_wf names : @fs_wf (ex_external names) ex_fs_conflict.
Proof.
  apply fs_wf_update_file; [apply ex_fs_wf | reflexivity | discriminate].
Qed.



(** * Instances on the example inputs *)


(** The example base and override. *)
Lemma deep_merge_reference_witness :
  deep_merge ex_base ex_override = deep_merge_ref ex_base ex_override /\
  forall k, dict_get k (deep_merge ex_base ex_override) =
            merged_entry (dict_get k ex_base) (dict_get k ex_override).
Proof. apply (deep_merge_reference ex_base ex_override); reflexivity. Defined.

(** Merging the dicts at 2 and 4 of the example heap. *)
Lemma deep_merge_leaves_inputs_witness :
  exists h' merged,
    Heap.deep_merge 5 Heap.ex_heap 2 4 = Ok (h', merged) /\
    (forall l, l < 5 -> nth_error h' l = nth_error Heap.ex_heap l) /\
    merged <> 2 /\ merged <> 4.
Proof.
  destruct (HeapFacts.deep_merge_leaves_inputs 5 Heap.ex_heap 2 4 _ _
              eq_refl eq_refl eq_refl)
    as (h' & merged & Hrun & _ & Hold & _ & _ & Hna & Hnb).
  exists h', merged. auto.
Defined.

(** Without [force]: [a.j2] is rendered, [build/b] is in the way of
    [b.j2]. *)
Lemma overwrite_policy_witness :
  snd (@render_templates (ex_external ["a.j2"; "b.j2"])
         ["templates"] ["build"] ex_config false ex_fs_conflict)
  = Raise (FileExistsError
             "Refusing to overwrite existing artifact: build/b (use --force)").
Proof.
  rewrite (proj1 (@overwrite_policy (ex_external ["a.j2"; "b.j2"])
                    ["templates"] ["build"] ex_config)
             ex_fs_conflict ["a.j2"] "b.j2" []
             (fst (for_each ["a.j2"]
                     (@render_template (ex_external ["a.j2"; "b.j2"])
                        ["templates"] ["build"] ex_config false)
                     ex_fs_conflict))
             "b.j2" (ex_fs_conflict_wf _) eq_refl eq_refl eq_refl eq_refl).
  reflexivity.
Defined.

(** The output of [broken.j2] exists and [force] is off, yet the run
    ends with the engine's error, raised when the
    template is loaded, before the overwrite check. *)
Lemma overwrite_conflict_preempted :
  @fs_exists (ex_external ["broken.j2"]) ex_fs_broken
    (joinpath ["build"] (relative_output "broken.j2")) = true /\
  snd (@render_templates (ex_external ["broken.j2"])
         ["templates"] ["build"] ex_config false ex_fs_broken)
  = Raise (TemplateError "unexpected end of template").
Proof. split; reflexivity. Qed.


(** [run.sh] is made executable. *)
Lemma executable_bit_witness :
  exists l text mode,
    @locate (ex_external [])
      (fst (@render_template (ex_external []) ["templates"] ["build"] ex_config
              false "run.sh.j2" ex_fs))
      ["build"; "run.sh"] = inr l /\
    fst (@render_template (ex_external []) ["templates"] ["build"] ex_config
           false "run.sh.j2" ex_fs) l
    = Some (File text mode) /\
    mode = 493%N.
Proof.
  destruct (@executable_bit (ex_external []) ["templates"] ["build"] ex_config
              false ex_fs "run.sh.j2"
              (fst (@render_template (ex_external []) ["templates"] ["build"]
                      ex_config false "run.sh.j2" ex_fs))
              eq_refl)
    as (l & text & mode & Hloc & Hfile & Hsh & _).
  exists l, text, mode. split; [exact Hloc|]. split; [exact Hfile|].
  apply Hsh. exists "run". split; [discriminate | reflexivity].
Defined.

(** The artifact of [.sh.j2] is the dotfile [.sh]: its path ends in
    [.sh], but it has no extension and keeps the creation mode. *)
Lemma executable_bit_dotfile :
  endswith (path_str (joinpath ["build"] (relative_output ".sh.j2"))) ".sh" = true /\
  snd (@render_template (ex_external []) ["templates"] ["build"] ex_config
         false ".sh.j2" ex_fs) = Ok tt /\
  @stat (ex_external [])
    (fst (@render_template (ex_external []) ["templates"] ["build"] ex_config
            false ".sh.j2" ex_fs))
    (joinpath ["build"] (relative_output ".sh.j2"))
  = Some (File "rendered .sh.j2" 420).
Proof. repeat split. Qed.

(** The example configuration passes; without [docker] and
    [installer] both are named. *)
Lemma validate_config_cases_witness :
  validate_config ex_config = Ok tt /\
  exists missing,
    validate_config [("app", VNone)] =
    Raise (ValueError ("Missing required configuration sections: "
                       +++ String.concat ", " missing)) /\
    (In "installer" missing /\ In "docker" missing /\ ~ In "app" missing).
Proof.
  split.
  - apply (proj2 (proj2 validate_config_cases) ex_config); reflexivity.
  - destruct (proj1 (proj2 validate_config_cases) [("app", VNone)])
      as (missing & Hraise & _ & Hspec).
    + discriminate.
    + exists "docker". split; [simpl; auto | reflexivity].
    + exists missing. split; [exact Hraise|]. repeat split.
      * apply Hspec. split; [simpl; auto | reflexivity].
      * apply Hspec. split; [simpl; auto | reflexivity].
      * intros Hin. apply Hspec in Hin as [_ Hin]. discriminate.
Defined.

(** A configuration with a key ["config"] of its own, and a base
    with an override. *)
Lemma build_context_exposes_witness :
  (exists context,
      @build_context (ex_external []) ["config"; "collision.yaml"] None ex_fs
      = (ex_fs, Ok context) /\
      exposes ex_config_collision context) /\
  (exists context,
      @build_context (ex_external []) ["config"; "defaults.yaml"]
        (Some ["config"; "override.yaml"]) ex_fs
      = (ex_fs, Ok context) /\
      exposes (deep_merge ex_config ex_override) context).
Proof.
  split.
  - apply (proj1 (@build_context_exposes (ex_external []))
             ex_fs ["config"; "collision.yaml"] ex_config_collision).
    reflexivity.
  - apply (proj2 (@build_context_exposes (ex_external []))
             ex_fs ["config"; "defaults.yaml"] ["config"; "override.yaml"]
             ex_config ex_override); reflexivity.
Defined.

(** An empty file. *)
Lemma load_yaml_null_document_witness :
  @load_yaml (ex_external []) ["config"; "empty.yaml"] ex_fs = (ex_fs, Ok (VDict [])).
Proof.
  apply (@load_yaml_null_document (ex_external []) ex_fs ["config"; "empty.yaml"] EmptyString 420);
    reflexivity.
Defined.

(** An empty base configuration. *)
Lemma empty_configuration_unreachable_witness :
  @main (ex_external []) ex_args_empty ex_fs =
  (ex_fs, Raise (ValueError
                   "Missing required configuration sections: app, installer, docker")) /\
  validate_config (context_of []) <> Raise empty_configuration.
Proof.
  split.
  - apply (proj2 (@empty_configuration_unreachable (ex_external []))
             ex_fs ex_args_empty); reflexivity.
  - apply (proj1 (@empty_configuration_unreachable (ex_external []))
             ex_fs ["config"; "empty.yaml"] None ex_fs (context_of [])).
    reflexivity.
Defined.

(** * Further properties of the script *)

(** ** The algebra of [deep_merge] *)

Lemma nodupb_cons k (l : list string) :
  nodupb (k :: l) = true <-> existsb (String.eqb k) l = false /\ nodupb l = true.
Proof. simpl. rewrite andb_true_iff, negb_true_iff. reflexivity. Qed.

(** Two dicts with the same keys in the same order, none repeated, and
    the same value under every key are the same dict. *)
Lemma dict_ext {V} : forall (d d' : list (string * V)),
  nodupb (map fst d) = true ->
  map fst d = map fst d' ->
  (forall k, dict_get k d = dict_get k d') ->
  d = d'.
Proof.
  induction d as [|[k v] r IH]; intros [|[k' v'] r'] Hn Hk Hget; try discriminate; auto.
  simpl in Hk. injection Hk as <- Hk.
  apply nodupb_cons in Hn as [Hfresh Hn].
  pose proof (Hget k) as Hkk. simpl in Hkk. rewrite String.eqb_refl in Hkk.
  injection Hkk as <-. f_equal. apply IH; auto.
  intros k0. specialize (Hget k0). simpl in Hget.
  destruct (String.eqb k k0) eqn:E; auto.
  apply String.eqb_eq in E. subst k0.
  rewrite (proj2 (dict_get_none_iff k r) Hfresh).
  symmetry. apply dict_get_none_iff. now rewrite <- Hk.
Qed.

Lemma dict_mem_merge_item merged key v k :
  dict_mem k (merge_item deep_merge_value merged (key, v)) =
  String.eqb key k || dict_mem k merged.
Proof. rewrite merge_item_stored. apply dict_mem_set. Qed.

Lemma dict_mem_merge_loop override : forall merged k,
  dict_mem k (fold_left (merge_item deep_merge_value) override merged) =
  dict_mem k merged || dict_mem k override.
Proof.
  induction override as [|[key v] rest IH]; intros merged k.
  - simpl. now rewrite orb_false_r.
  - cbn [fold_left]. rewrite IH, dict_mem_merge_item.
    unfold dict_mem at 4. cbn [dict_get].
    destruct (String.eqb key k); simpl.
    + now rewrite orb_true_r.
    + reflexivity.
Qed.

Lemma dict_mem_deep_merge base override k :
  dict_mem k (deep_merge base override) = dict_mem k base || dict_mem k override.
Proof. apply dict_mem_merge_loop. Qed.

Lemma keys_merge_loop override : forall merged,
  exists added, keys (fold_left (merge_item deep_merge_value) override merged)
                = keys merged ++ added.
Proof.
  induction override as [|[key v] rest IH]; intros merged.
  - exists []. simpl. now rewrite app_nil_r.
  - cbn [fold_left]. destruct (IH (merge_item deep_merge_value merged (key, v)))
      as [added Hadded].
    rewrite Hadded, merge_item_stored. unfold keys. rewrite keys_dict_set.
    destruct (dict_mem key merged).
    + now exists added.
    + exists (key :: added). now rewrite <- app_assoc.
Qed.

(** X4. [deep_merge] loses no key and invents none: a key is in the
    result exactly when it is in the base or in the override; and the
    keys of the base come first, in the order they had. *)
Theorem deep_merge_keys base override :
  (forall k, dict_mem k (deep_merge base override)
             = dict_mem k base || dict_mem k override) /\
  exists added, keys (deep_merge base override) = keys base ++ added.
Proof.
  split.
  - intros k. apply dict_mem_deep_merge.
  - apply keys_merge_loop.
Qed.

(** The keys of a merge of well-formed dicts: those of the base, then
    the new ones of the override. *)
Lemma keys_deep_merge base override :
  wf_dict base = true -> wf_dict override = true ->
  keys (deep_merge base override) =
  keys base ++ filter (fun k => negb (dict_mem k base)) (keys override).
Proof.
  intros Hb Ho. rewrite (deep_merge_is_ref _ _ Hb Ho), deep_merge_ref_unfold.
  unfold keys. rewrite map_app. f_equal.
  - rewrite map_map. apply map_ext. intros [k v]. reflexivity.
  - clear. induction override as [|[k v] rest IH]; simpl; auto.
    destruct (negb (dict_mem k base)); simpl; now rewrite IH.
Qed.

Lemma filter_none {A} (f : A -> bool) (l : list A) :
  (forall x, In x l -> f x = false) -> filter f l = [].
Proof.
  induction l as [|x l IH]; intros Hf; simpl; auto.
  rewrite (Hf x (or_introl eq_refl)). apply IH. intros y Hy. apply Hf. now right.
Qed.

Lemma dict_mem_In_keys {V} k (d : list (string * V)) :
  In k (map fst d) -> dict_mem k d = true.
Proof.
  intros Hin. unfold dict_mem. destruct (dict_get k d) eqn:G; auto.
  apply dict_get_none_iff in G.
  assert (existsb (String.eqb k) (map fst d) = true).
  { apply existsb_exists. exists k. split; auto. apply String.eqb_refl. }
  congruence.
Qed.

(** When every key of the override is in the base already, the merge
    keeps the keys of the base. *)
Lemma keys_deep_merge_covered base override :
  wf_dict base = true -> wf_dict override = true ->
  (forall k, In k (keys override) -> dict_mem k base = true) ->
  keys (deep_merge base override) = keys base.
Proof.
  intros Hb Ho Hcov. rewrite keys_deep_merge by assumption.
  rewrite filter_none; [apply app_nil_r|].
  intros k Hk. now rewrite (Hcov k Hk).
Qed.

Lemma wf_dict_nodup d : wf_dict d = true -> nodupb (keys d) = true.
Proof. rewrite wf_dict_unfold. intros Hwf. now apply andb_true_iff in Hwf as [Hn _]. Qed.

Lemma dict_get_Forall (P : value -> Prop) (d : dict) k v :
  Forall (fun item => P (snd item)) d -> dict_get k d = Some v -> P v.
Proof.
  intros HF Hg. apply dict_get_In in Hg.
  rewrite Forall_forall in HF. apply (HF (k, v) Hg).
Qed.

Lemma deep_merge_idempotent_value v : merge_idempotent v.
Proof.
  induction v as [| | | | | xs IH | items IH] using value_ind; intros Hwf; auto.
  fold (wf_dict items) in Hwf.
  apply dict_ext.
  - apply wf_dict_nodup. now apply wf_deep_merge.
  - apply keys_deep_merge_covered; auto. intros k. apply dict_mem_In_keys.
  - intros k. rewrite deep_merge_unfold, merge_loop_get by now apply wf_dict_nodup.
    destruct (dict_get k items) as [[| | | | | |d]|] eqn:G; try reflexivity.
    cbn [merged_entry]. do 2 f_equal.
    apply (dict_get_Forall merge_idempotent _ _ _ IH G).
    eapply dict_get_wf; eauto.
Qed.

(** X1. Merging a configuration with itself gives it back. *)
Theorem deep_merge_idempotent d :
  wf_dict d = true -> deep_merge d d = d.
Proof. intros Hwf. now apply (deep_merge_idempotent_value (VDict d)). Qed.

Lemma deep_merge_absorbs_value v : merge_absorbs v.
Proof.
  induction v as [| | | | | xs IH | items IH] using value_ind; intros Hwf; auto.
  fold (wf_dict items) in Hwf. intros b Hb.
  assert (Hm : wf_dict (deep_merge b items) = true) by now apply wf_deep_merge.
  apply dict_ext.
  - apply wf_dict_nodup. now apply wf_deep_merge.
  - apply keys_deep_merge_covered; auto. intros k Hk.
    rewrite dict_mem_deep_merge, (dict_mem_In_keys k items Hk). apply orb_true_r.
  - intros k.
    rewrite (deep_merge_unfold (deep_merge b items)),
      merge_loop_get by now apply wf_dict_nodup.
    rewrite deep_merge_unfold, merge_loop_get by now apply wf_dict_nodup.
    destruct (dict_get k items) as [vo|] eqn:Go.
    2: { now rewrite merged_entry_none_r. }
    assert (Hvo : wf_value vo = true) by exact (dict_get_wf items k vo Hwf Go).
    destruct vo as [| | | | | |o];
      try (destruct (dict_get k b) as [[| | | | | |e]|]; reflexivity).
    destruct (dict_get k b) as [vb|] eqn:Gb.
    + assert (Hvb : wf_value vb = true) by exact (dict_get_wf b k vb Hb Gb).
      destruct vb as [| | | | | |e]; cbn [merged_entry];
        try (do 2 f_equal; exact (deep_merge_idempotent_value (VDict o) Hvo)).
      do 2 f_equal.
      apply (dict_get_Forall merge_absorbs _ _ _ IH Go Hvo e Hvb).
    + cbn [merged_entry]. do 2 f_equal.
      exact (deep_merge_idempotent_value (VDict o) Hvo).
Qed.

(** X2. Applying an override a second time changes nothing. *)
Theorem deep_merge_absorbs base override :
  wf_dict base = true -> wf_dict override = true ->
  deep_merge (deep_merge base override) override = deep_merge base override.
Proof.
  intros Hb Ho. now apply (deep_merge_absorbs_value (VDict override)).
Qed.

Lemma merge_loop_fresh override : forall merged,
  nodupb (keys override) = true ->
  (forall k, In k (keys override) -> dict_get k merged = None) ->
  fold_left (merge_item deep_merge_value) override merged = merged ++ override.
Proof.
  induction override as [|[key v] rest IH]; intros merged Hn Hfresh.
  - simpl. now rewrite app_nil_r.
  - change (keys ((key, v) :: rest)) with (key :: keys rest) in Hn.
    apply nodupb_cons in Hn as [Hkey Hn].
    cbn [fold_left]. rewrite merge_item_stored.
    rewrite (Hfresh key (or_introl eq_refl)). cbn [stored_value].
    rewrite dict_set_absent by (apply Hfresh; now left).
    rewrite IH; auto.
    + now rewrite <- app_assoc.
    + intros k Hk. rewrite <- dict_set_absent with (v := v)
        by (apply Hfresh; now left).
      rewrite dict_get_set.
      destruct (String.eqb key k) eqn:E.
      * apply String.eqb_eq in E. subst k. exfalso.
        assert (existsb (String.eqb key) (keys rest) = true).
        { apply existsb_exists. exists key. split; auto. apply String.eqb_refl. }
        congruence.
      * apply Hfresh. now right.
Qed.

(** X3. The empty mapping is neutral on both sides: an empty override
    leaves the base as it is, and an override merged onto an empty base
    comes out as it is. *)
Theorem deep_merge_empty d :
  nodupb (keys d) = true ->
  deep_merge d [] = d /\ deep_merge [] d = d.
Proof.
  intros Hn. split; [reflexivity|].
  rewrite deep_merge_unfold, merge_loop_fresh; auto.
Qed.

(** ** What the merged dict shares with its inputs *)

Module HeapSharing.
Import Heap.

(** An iteration that succeeds stores one value under its key in the
    dict at [m]; it stores the incoming value itself unless both the
    entry and the incoming value are dicts. *)
Lemma merge_item_stores rec m h key v items h' :
  frames rec ->
  nth_error h m = Some (ODict items) ->
  merge_item rec m h (key, v) = Ok h' ->
  exists x, nth_error h' m = Some (ODict (dict_set key x items)) /\
            (match dict_get key items with
             | Some existing => isinstance_dict h existing && isinstance_dict h v
             | None => false
             end = false -> x = v).
Proof.
  intros Hrec Hm Hstep.
  destruct (match dict_get key items with
            | Some existing => isinstance_dict h existing && isinstance_dict h v
            | None => false
            end) eqn:Both.
  - destruct (dict_get key items) as [existing|] eqn:G; [|discriminate].
    apply andb_true_iff in Both as [He Hv].
    destruct (HeapFacts.merge_item_recurse rec m h key existing v items Hm G He Hv)
      as (e & o & -> & -> & Heq).
    rewrite Heq in Hstep.
    destruct (rec h e o) as [[h1 r]|ex] eqn:R; [|discriminate].
    injection Hstep as <-. exists (HRef r). split; [|discriminate].
    apply HeapFacts.nth_setitem_same.
    destruct (Hrec _ _ _ _ _ R) as [_ Hsame].
    rewrite Hsame; auto. apply nth_error_Some. congruence.
  - rewrite (HeapFacts.merge_item_assign rec m h key v items Hm Both) in Hstep.
    injection Hstep as <-. exists v. split; auto.
    now apply HeapFacts.nth_setitem_same.
Qed.

(** The loop leaves alone every key the override does not name. *)
Lemma merge_items_untouched rec m todo : forall h items h',
  frames rec ->
  nth_error h m = Some (ODict items) ->
  merge_items rec m todo h = Ok h' ->
  exists items', nth_error h' m = Some (ODict items') /\
                 forall k, dict_get k todo = None ->
                           dict_get k items' = dict_get k items.
Proof.
  induction todo as [|[key v] rest IH]; intros h items h' Hrec Hm Hrun.
  - injection Hrun as <-. now exists items.
  - cbn [merge_items] in Hrun.
    destruct (merge_item rec m h (key, v)) as [h1|ex] eqn:Step; [|discriminate].
    destruct (merge_item_stores _ _ _ _ _ _ _ Hrec Hm Step) as (x & Hm1 & _).
    destruct (IH _ _ _ Hrec Hm1 Hrun) as (items' & Hm' & Hget).
    exists items'. split; auto. intros k Hk. cbn [dict_get] in Hk.
    destruct (String.eqb key k) eqn:E; [discriminate|].
    rewrite (Hget k Hk). apply dict_get_set_other.
    intros ->. now rewrite String.eqb_refl in E.
Qed.

Lemma isinstance_dict_below h hc n v :
  (forall l, l < n -> nth_error hc l = nth_error h l) ->
  value_closed n v = true ->
  isinstance_dict hc v = isinstance_dict h v.
Proof.
  intros Hsame Hv. destruct v as [| | | | |l]; auto.
  cbn [value_closed] in Hv. apply Nat.ltb_lt in Hv.
  cbn [isinstance_dict]. now rewrite Hsame.
Qed.

(** A value of the override is stored as it is, unless it is a dict
    that meets a dict of the base. *)
Lemma merge_items_assigned rec h k v todo : forall hc items h',
  frames rec ->
  List.length h <= List.length hc ->
  (forall l, l < List.length h -> nth_error hc l = nth_error h l) ->
  nth_error hc (List.length h) = Some (ODict items) ->
  merge_items rec (List.length h) todo hc = Ok h' ->
  nodupb (map fst todo) = true ->
  dict_get k todo = Some v ->
  value_closed (List.length h) v = true ->
  match dict_get k items with
  | Some existing => value_closed (List.length h) existing = true
  | None => True
  end ->
  match dict_get k items with
  | Some existing => isinstance_dict h existing && isinstance_dict h v
  | None => false
  end = false ->
  exists items', nth_error h' (List.length h) = Some (ODict items') /\
                 dict_get k items' = Some v.
Proof.
  induction todo as [|[key w] rest IH];
    intros hc items h' Hrec Hlen Hsame Hm Hrun Hn Hk Hv Hclosed Hnot; [discriminate|].
  cbn [merge_items] in Hrun.
  destruct (merge_item rec (List.length h) hc (key, w)) as [h1|ex] eqn:Step;
    [|discriminate].
  destruct (merge_item_stores _ _ _ _ _ _ _ Hrec Hm Step) as (x & Hm1 & Hx).
  cbn [map fst] in Hn. apply nodupb_cons in Hn as [Hfresh Hn].
  cbn [dict_get] in Hk. destruct (String.eqb key k) eqn:E.
  - apply String.eqb_eq in E. subst key. injection Hk as ->.
    destruct (merge_items_untouched _ _ _ _ _ _ Hrec Hm1 Hrun) as (items' & Hm' & Hget).
    exists items'. split; auto.
    rewrite Hget by now apply dict_get_none_iff.
    rewrite dict_get_set_same. f_equal. apply Hx.
    destruct (dict_get k items) as [existing|]; auto.
    rewrite (isinstance_dict_below h hc _ existing Hsame Hclosed).
    now rewrite (isinstance_dict_below h hc _ v Hsame Hv).
  - assert (Hne : key <> k) by (intros ->; now rewrite String.eqb_refl in E).
    destruct (HeapFacts.merge_item_frame _ _ _ _ _ Hrec Step) as [Hlen1 Hsame1].
    apply (IH h1 (dict_set key x items) h'); auto.
    + lia.
    + intros l Hl. rewrite Hsame1 by lia. now apply Hsame.
    + now rewrite dict_get_set_other.
    + now rewrite dict_get_set_other.
Qed.

Lemma dict_get_closed n (items : list (string * hvalue)) k v :
  forallb (fun item => value_closed n (snd item)) items = true ->
  dict_get k items = Some v -> value_closed n v = true.
Proof.
  intros Hall Hg. rewrite forallb_forall in Hall.
  induction items as [|[k' w] rest IH]; [discriminate|].
  cbn [dict_get] in Hg. destruct (String.eqb k' k).
  - injection Hg as <-. apply (Hall (k', w)). now left.
  - apply IH; auto. intros x Hx. apply Hall. now right.
Qed.

(** X5. The merged dict is a shallow copy.  Under every key the override
    does not name it holds the very value the base holds, a reference to
    a nested object included; and a value of the override is stored as
    it is, not copied, unless it is a dict meeting a dict of the base. *)
Theorem deep_merge_shares depth h base override h' merged :
  heap_closed h = true ->
  deep_merge depth h base override = Ok (h', merged) ->
  exists base_items override_items merged_items,
    nth_error h base = Some (ODict base_items) /\
    nth_error h override = Some (ODict override_items) /\
    nth_error h' merged = Some (ODict merged_items) /\
    (forall k, dict_get k override_items = None ->
               dict_get k merged_items = dict_get k base_items) /\
    (nodupb (map fst override_items) = true ->
     forall k v, dict_get k override_items = Some v ->
       match dict_get k base_items with
       | Some existing => isinstance_dict h existing && isinstance_dict h v
       | None => false
       end = false ->
       dict_get k merged_items = Some v).
Proof.
  intros Hclosed Hrun. destruct depth as [|depth]; [discriminate|].
  destruct (HeapFacts.deep_merge_ok _ _ _ _ _ _ Hrun)
    as (bi & oi & Hb & Ho & -> & Hloop).
  assert (Hm : nth_error (h ++ [ODict bi]) (List.length h) = Some (ODict bi)).
  { rewrite nth_error_app2 by lia. now rewrite Nat.sub_diag. }
  pose proof (HeapFacts.deep_merge_frames depth) as Hrec.
  destruct (merge_items_untouched _ _ _ _ _ _ Hrec Hm Hloop) as (mi & Hm' & Hget).
  exists bi, oi, mi. repeat split; auto.
  intros Hn k v Hk Hnot.
  pose proof (HeapFacts.heap_closed_lookup _ _ _ Hclosed Hb) as Hcb.
  pose proof (HeapFacts.heap_closed_lookup _ _ _ Hclosed Ho) as Hco.
  cbn [object_closed] in Hcb, Hco.
  destruct (merge_items_assigned (deep_merge depth) h k v oi (h ++ [ODict bi]) bi h')
    as (mi' & Hm'' & Hgot); auto.
  - rewrite length_app. lia.
  - intros l Hl. now rewrite nth_error_app1.
  - now apply (dict_get_closed _ oi k).
  - destruct (dict_get k bi) as [existing|] eqn:G; auto.
    now apply (dict_get_closed _ bi k).
  - rewrite Hm'' in Hm'. now injection Hm' as <-.
Qed.

End HeapSharing.

(** ** Loading and validating the configuration *)

Lemma walk_errno fs components : forall l e,
  walk fs l components = inl e -> e = ENOENT \/ e = ENOTDIR.
Proof.
  induction components as [|c rest IH]; intros l e; cbn [walk]; [discriminate|].
  destruct (fs (enter l c)) as [[content mode|]|]; [|apply IH|]; intros [= <-]; auto.
Qed.

Section ConfigFacts.
Context `{External}.

Lemma locate_errno fs p e : locate fs p = inl e -> e = ENOENT \/ e = ENOTDIR.
Proof.
  unfold locate. destruct p as [|c p]; [discriminate|].
  destruct (walk fs cwd (removelast (c :: p))) as [e'|d] eqn:W; [|discriminate].
  intros [= <-]. eapply walk_errno; eauto.
Qed.

(** What a call of [load_yaml] that returns has done. *)
Lemma load_yaml_inv fs p fs' v :
  load_yaml p fs = (fs', Ok v) ->
  fs' = fs /\
  exists text mode document,
    stat fs p = Some (File text mode) /\
    safe_load text = Ok document /\
    v = if truthy document then document else VDict [].
Proof.
  unfold load_yaml, bind, read_text, lift, ret, stat.
  destruct (locate fs p) as [e|l]; [discriminate|].
  destruct (fs l) as [[text mode|]|]; try discriminate.
  destruct (safe_load text) as [document|e] eqn:P; [|discriminate].
  intros [= <- <-]. split; auto. now exists text, mode, document.
Qed.

Lemma load_yaml_keeps_disk fs p fs' r : load_yaml p fs = (fs', r) -> fs' = fs.
Proof.
  unfold load_yaml, bind, read_text, lift, ret.
  destruct (locate fs p) as [e|l]; [now intros [= <- _]|].
  destruct (fs l) as [[text mode|]|]; try now intros [= <- _].
  destruct (safe_load text); now intros [= <- _].
Qed.

(** X6. [load_yaml] never returns a falsy value other than the empty
    mapping: [None], [False], [0], the empty string and the empty list
    all come out as [{}].  A truthy document is returned as parsed, also
    when it is not a mapping.  The disk is left as it was. *)
Theorem load_yaml_result fs p fs' v :
  load_yaml p fs = (fs', Ok v) ->
  fs' = fs /\
  (truthy v = true \/ v = VDict []) /\
  exists text mode document,
    stat fs p = Some (File text mode) /\
    safe_load text = Ok document /\
    (truthy document = true -> v = document) /\
    (truthy document = false -> v = VDict []).
Proof.
  intros Hload.
  destruct (load_yaml_inv _ _ _ _ Hload) as (-> & text & mode & document & Hs & Hp & ->).
  split; auto. split.
  - destruct (truthy document) eqn:T; auto.
  - exists text, mode, document. repeat split; auto; now intros ->.
Qed.

Lemma walk_app fs a : forall l b,
  walk fs l (a ++ b) =
  match walk fs l a with
  | inr d => walk fs d b
  | inl e => inl e
  end.
Proof.
  induction a as [|c a IH]; intros l b; cbn [app walk]; [reflexivity|].
  destruct (fs (enter l c)) as [[content mode|]|]; auto.
Qed.

(** A walk stops with [ENOTDIR] at a file it meets. *)
Lemma walk_enotdir fs components : forall l,
  walk fs l components = inl ENOTDIR ->
  exists pre c rest d content mode,
    components = pre ++ c :: rest /\
    walk fs l pre = inr d /\
    fs (enter d c) = Some (File content mode).
Proof.
  induction components as [|c rest IH]; intros l; cbn [walk]; [discriminate|].
  destruct (fs (enter l c)) as [[content mode|]|] eqn:F.
  - intros _. now exists [], c, rest, l, content, mode.
  - intros W. destruct (IH _ W) as (pre & c' & rest' & d & content & mode & -> & Hw & Hf).
    exists (c :: pre), c', rest', d, content, mode. repeat split; auto.
    cbn [walk]. now rewrite F.
  - discriminate.
Qed.

Lemma locate_snoc fs pre c :
  locate fs (pre ++ [c]) =
  match walk fs cwd pre with
  | inr d => inr (enter d c)
  | inl e => inl e
  end.
Proof.
  unfold locate. destruct (pre ++ [c]) eqn:E.
  - now apply app_eq_nil in E as [_ E].
  - rewrite <- E, removelast_last, last_last. reflexivity.
Qed.

Lemma locate_nonempty fs p :
  p <> [] ->
  locate fs p =
  match walk fs cwd (removelast p) with
  | inr d => inr (enter d (last p EmptyString))
  | inl e => inl e
  end.
Proof. destruct p; [congruence|reflexivity]. Qed.

(** A file on the way makes the path lead nowhere, with [ENOTDIR]. *)
Lemma locate_file_on_the_way fs p :
  file_on_the_way fs p -> locate fs p = inl ENOTDIR.
Proof.
  intros (n & [Hpos Hlt] & Hfile).
  assert (Hp : p <> []) by (intros ->; simpl in Hlt; lia).
  rewrite (locate_nonempty _ _ Hp).
  assert (Hq : firstn n p <> []).
  { intros Hnil. apply (f_equal (@List.length string)) in Hnil.
    rewrite length_firstn in Hnil. simpl in Hnil. lia. }
  assert (Hs : skipn n p <> []).
  { intros Hnil. apply (f_equal (@List.length string)) in Hnil.
    rewrite length_skipn in Hnil. simpl in Hnil. lia. }
  unfold fs_is_file, stat in Hfile.
  rewrite (app_removelast_last EmptyString Hq) in Hfile.
  rewrite locate_snoc in Hfile.
  destruct (walk fs cwd (removelast (firstn n p))) as [e|d] eqn:W; [discriminate|].
  destruct (fs (enter d (last (firstn n p) EmptyString))) as [[content mode|]|] eqn:F;
    try discriminate.
  rewrite <- (firstn_skipn n p) at 1.
  rewrite (removelast_app _ Hs).
  rewrite (app_removelast_last EmptyString Hq) at 1.
  rewrite <- app_assoc, walk_app, W. cbn [app walk]. now rewrite F.
Qed.

(** A path that leads nowhere with [ENOTDIR] has a file on its way. *)
Lemma locate_enotdir fs p : locate fs p = inl ENOTDIR -> file_on_the_way fs p.
Proof.
  intros L.
  assert (Hp : p <> []) by (intros ->; discriminate).
  rewrite (locate_nonempty _ _ Hp) in L.
  destruct (walk fs cwd (removelast p)) as [e|d] eqn:W; [|discriminate].
  injection L as ->.
  destruct (walk_enotdir _ _ _ W) as (pre & c & rest & d & content & mode & Hsplit & Hw & Hf).
  assert (Hpfull : exists z, p = (pre ++ [c]) ++ rest ++ [z]).
  { exists (last p EmptyString).
    rewrite (app_removelast_last EmptyString Hp) at 1. rewrite Hsplit.
    now rewrite <- !app_assoc. }
  destruct Hpfull as [z Hpfull].
  exists (List.length (pre ++ [c])). split.
  - rewrite Hpfull, !length_app. simpl. lia.
  - rewrite Hpfull, firstn_app, firstn_all, Nat.sub_diag. cbn [firstn].
    rewrite app_nil_r. unfold fs_is_file, stat.
    now rewrite locate_snoc, Hw, Hf.
Qed.

(** X7. The ways [load_yaml] fails.  When a regular file stands where
    the path needs a directory it raises [NotADirectoryError]; when the
    path does not exist and no file is on its way, [FileNotFoundError];
    when the path is a directory, [IsADirectoryError]; each with the
    message of the operating system, which ends in the [repr] of the
    path.  An error of the parser comes out as it is.  None of them
    touches the disk. *)
Theorem load_yaml_unreadable fs p :
  (file_on_the_way fs p -> load_yaml p fs = (fs, Raise (os_exn ENOTDIR p))) /\
  (fs_exists fs p = false -> ~ file_on_the_way fs p ->
   load_yaml p fs = (fs, Raise (os_exn ENOENT p))) /\
  (fs_is_dir fs p = true -> load_yaml p fs = (fs, Raise (os_exn EISDIR p))) /\
  (forall text mode e,
      stat fs p = Some (File text mode) ->
      safe_load text = Raise e ->
      load_yaml p fs = (fs, Raise e)).
Proof.
  split; [|split; [|split]].
  - intros Hway. unfold load_yaml, bind, read_text.
    now rewrite (locate_file_on_the_way _ _ Hway).
  - intros He Hway. unfold fs_exists, stat in He.
    unfold load_yaml, bind, read_text.
    destruct (locate fs p) as [e|l] eqn:L.
    + destruct (locate_errno _ _ _ L) as [->| ->]; [reflexivity|].
      exfalso. apply Hway. now apply locate_enotdir.
    + destruct (fs l) as [[text mode|]|]; try discriminate. reflexivity.
  - unfold fs_is_dir, stat, load_yaml, bind, read_text.
    destruct (locate fs p) as [e|l]; [discriminate|].
    destruct (fs l) as [[text mode|]|]; try discriminate. reflexivity.
  - intros text mode e Hs Hp. unfold load_yaml, bind, lift.
    now rewrite (read_text_file _ _ _ _ Hs), Hp.
Qed.

(** X8. A configuration file whose document is not a mapping stops
    [build_context]: the base with a [TypeError] ([{**config}] needs a
    mapping), with or without an override; the override with an
    [AttributeError] (it has no [items]). *)
Theorem build_context_non_mapping fs default_config :
  (forall document,
      load_yaml default_config fs = (fs, Ok document) ->
      isinstance_dict document = false ->
      exists msg, build_context default_config None fs = (fs, Raise (TypeError msg))) /\
  (forall document override_config overrides,
      load_yaml default_config fs = (fs, Ok document) ->
      isinstance_dict document = false ->
      load_yaml override_config fs = (fs, Ok overrides) ->
      exists msg, build_context default_config (Some override_config) fs
                  = (fs, Raise (TypeError msg))) /\
  (forall base override_config overrides,
      load_yaml default_config fs = (fs, Ok (VDict base)) ->
      load_yaml override_config fs = (fs, Ok overrides) ->
      isinstance_dict overrides = false ->
      exists msg, build_context default_config (Some override_config) fs
                  = (fs, Raise (AttributeError msg))).
Proof.
  repeat split.
  - intros document Hload Hd. unfold build_context, bind. rewrite Hload.
    destruct document; try discriminate; eexists; reflexivity.
  - intros document o overrides Hload Hd Hover. unfold build_context, bind.
    rewrite Hload, Hover.
    destruct document; try discriminate; eexists; reflexivity.
  - intros base o overrides Hload Hover Hd. unfold build_context, bind.
    rewrite Hload, Hover.
    destruct overrides; try discriminate; eexists; reflexivity.
Qed.

(** X9. With both files loaded as mappings, every key of the context
    other than ["config"] holds the override's value when the override
    has the key, merged recursively with the base's when both are
    mappings, and the base's value otherwise. *)
Theorem build_context_entries fs default_config override_config base overrides :
  load_yaml default_config fs = (fs, Ok (VDict base)) ->
  load_yaml override_config fs = (fs, Ok (VDict overrides)) ->
  nodupb (keys overrides) = true ->
  exists context,
    build_context default_config (Some override_config) fs = (fs, Ok context) /\
    forall k, k <> "config" ->
      dict_get k context =
      match dict_get k base, dict_get k overrides with
      | Some (VDict b), Some (VDict o) => Some (VDict (deep_merge b o))
      | _, Some v => Some v
      | kept, None => kept
      end.
Proof.
  intros Hload Hover Hn. exists (context_of (deep_merge base overrides)). split.
  - unfold build_context, bind. rewrite Hload, Hover. reflexivity.
  - intros k Hk. destruct (context_of_exposes (deep_merge base overrides)) as [_ Hget].
    rewrite (Hget k Hk), deep_merge_unfold, merge_loop_get by assumption.
    destruct (dict_get k base) as [[]|], (dict_get k overrides) as [[]|];
      reflexivity.
Qed.

Lemma build_context_keeps_disk fs default_config override_config fs' r :
  build_context default_config override_config fs = (fs', r) -> fs' = fs.
Proof.
  unfold build_context, bind.
  destruct (load_yaml default_config fs) as [fs1 [config1|e]] eqn:L1;
    apply load_yaml_keeps_disk in L1; subst fs1; [|now intros [= <- _]].
  destruct override_config as [p|].
  - destruct (load_yaml p fs) as [fs2 [overrides|e]] eqn:L2;
      apply load_yaml_keeps_disk in L2; subst fs2; [|now intros [= <- _]].
    unfold lift. destruct (call_deep_merge config1 overrides) as [[]|e];
      now intros [= <- _].
  - unfold ret. destruct config1; now intros [= <- _].
Qed.

(** X10. Loading and merging only read: whatever [load_yaml] and
    [build_context] return or raise, the disk is what it was. *)
Theorem build_context_reads_only fs default_config override_config fs' r :
  build_context default_config override_config fs = (fs', r) -> fs' = fs.
Proof. apply build_context_keeps_disk. Qed.

Lemma dict_mem_context_of merged k :
  k <> "config" -> dict_mem k (context_of merged) = dict_mem k merged.
Proof.
  intros Hk. unfold dict_mem. destruct (context_of_exposes merged) as [_ Hget].
  now rewrite (Hget k Hk).
Qed.

Lemma context_of_nonempty merged : context_of merged <> [].
Proof.
  intros Heq. pose proof (dict_get_set_same "config" (VDict merged) merged) as G.
  unfold context_of in Heq. rewrite Heq in G. discriminate.
Qed.

Lemma validate_context_of merged :
  validate_config (context_of merged) = Ok tt <->
  forall key, In key required_sections -> dict_mem key merged = true.
Proof.
  rewrite validate_config_nonempty by apply context_of_nonempty. cbv zeta.
  unfold required_sections. cbn [filter].
  rewrite !dict_mem_context_of by discriminate.
  split.
  - intros Hok key [<-|[<-|[<-|[]]]];
      destruct (dict_mem "app" merged), (dict_mem "installer" merged),
        (dict_mem "docker" merged); try discriminate; reflexivity.
  - intros Hall.
    rewrite (Hall "app"), (Hall "installer"), (Hall "docker"); simpl; auto.
Qed.

(** X11. Validation of a merged configuration: the context built from
    two mappings passes [validate_config] exactly when each of [app],
    [installer] and [docker] is a key of the base or of the override.
    An override can supply a required section and cannot remove one. *)
Theorem validate_merged_context fs default_config override_config base overrides
    context :
  load_yaml default_config fs = (fs, Ok (VDict base)) ->
  load_yaml override_config fs = (fs, Ok (VDict overrides)) ->
  build_context default_config (Some override_config) fs = (fs, Ok context) ->
  (validate_config context = Ok tt <->
   forall key, In key ["app"; "installer"; "docker"] ->
               dict_mem key base = true \/ dict_mem key overrides = true).
Proof.
  intros Hload Hover Hbuild. unfold build_context, bind in Hbuild.
  rewrite Hload, Hover in Hbuild. injection Hbuild as <-.
  rewrite validate_context_of. unfold required_sections.
  split; intros Hall key Hin; specialize (Hall key Hin);
    rewrite dict_mem_deep_merge in *; now apply orb_true_iff.
Qed.

End ConfigFacts.

(** ** What a rendering run does to the disk *)

Lemma keeps_refl fs : keeps fs fs.
Proof. intros l n Hl. exact Hl. Qed.

Lemma keeps_trans fs1 fs2 fs3 : keeps fs1 fs2 -> keeps fs2 fs3 -> keeps fs1 fs3.
Proof. intros H12 H23 l n Hl. apply H23, H12, Hl. Qed.

Lemma adds_dirs_keeps fs fs' : adds_dirs fs fs' -> keeps fs fs'.
Proof.
  intros Ha l n Hl. destruct (Ha l) as [Heq|[Hnone _]]; congruence.
Qed.

Lemma keeps_grows fs fs' : keeps fs fs' -> grows fs fs'.
Proof.
  intros Hk l. split.
  - apply Hk.
  - intros content mode Hl. exists content, mode. now apply Hk.
Qed.

(** Filling a free location keeps everything else. *)
Lemma keeps_fill fs fs' l n :
  fs l = None -> (forall q, fs' q = fs_update fs l n q) -> keeps fs fs'.
Proof.
  intros Hfree Hfs' q m Hq. rewrite Hfs', fs_update_other; auto.
  intros ->. congruence.
Qed.

Section RenderMore.
Context `{External}.
Variables (template_dir output_dir : path) (context : dict).

Let step := render_template template_dir output_dir context.
Let out (template_name : string) : path :=
  joinpath output_dir (relative_output template_name).

Lemma fs_exists_false_free fs p l :
  fs_exists fs p = false -> locate fs p = inr l -> fs l = None.
Proof.
  unfold fs_exists, stat. intros He Hl. rewrite Hl in He.
  destruct (fs l); [discriminate|reflexivity].
Qed.

Lemma fs_exists_grows fs fs' p :
  grows fs fs' -> fs_exists fs p = true -> fs_exists fs' p = true.
Proof.
  intros Hg He. unfold fs_exists in *.
  destruct (stat fs p) as [[content mode|]|] eqn:S; [| |discriminate].
  - assert (Hf : fs_is_file fs p = true) by (unfold fs_is_file; now rewrite S).
    apply (stat_grows_file _ _ _ Hg) in Hf. unfold fs_is_file in Hf.
    destruct (stat fs' p); [reflexivity|discriminate].
  - assert (Hd : fs_is_dir fs p = true) by (unfold fs_is_dir; now rewrite S).
    apply (stat_grows_dir _ _ _ Hg) in Hd. unfold fs_is_dir in Hd.
    destruct (stat fs' p); [reflexivity|discriminate].
Qed.

(** Without [force] an iteration alters nothing that exists. *)
Lemma render_template_keeps template_name fs fs' r :
  step false template_name fs = (fs', r) -> keeps fs fs'.
Proof.
  unfold step. rewrite render_template_cases.
  destruct (get_template fs template_dir template_name) as [template|e];
    [|intros [= <- _]; apply keeps_refl].
  destruct (mkdir_parents _ fs) as [fs1 [[]|e]] eqn:M;
    pose proof (adds_dirs_keeps _ _ (mkdir_parents_adds _ _ _ _ M)) as K1;
    [|now intros [= <- _]].
  rewrite andb_true_r.
  destruct (fs_exists fs1 _) eqn:E; [now intros [= <- _]|].
  destruct (render fs1 template context) as [rendered|e]; [|now intros [= <- _]].
  destruct (write_text _ rendered fs1) as [fs2 [[]|e]] eqn:W.
  2: { apply write_text_raise in W. subst fs2. now intros [= <- _]. }
  destruct (write_text_ok _ _ _ _ W) as (l & Hl & _ & Hfs2).
  pose proof (fs_exists_false_free _ _ _ E Hl) as Hfree.
  assert (K2 : keeps fs1 fs2).
  { apply (keeps_fill fs1 fs2 l
             (File rendered (match fs1 l with Some (File _ m) => m | _ => create_mode end)));
      auto. intros q. now rewrite Hfs2. }
  destruct (String.eqb _ ".sh").
  - intros Hc. apply keeps_trans with fs1; auto.
    destruct (chmod_cases _ _ _ _ _ Hc) as [->|(l' & content & old & Hl' & _ & -> & _)];
      auto.
    rewrite (locate_grows fs1 fs2 _ l (keeps_grows _ _ K2) Hl) in Hl'.
    injection Hl' as <-.
    intros q n Hq. rewrite fs_update_other by (intros ->; congruence).
    now apply K2.
  - intros [= <- _]. now apply keeps_trans with fs1.
Qed.

Lemma for_each_keeps names : forall fs fs' r,
  for_each names (step false) fs = (fs', r) -> keeps fs fs'.
Proof.
  induction names as [|t rest IH]; intros fs fs' r.
  - intros [= <- _]. apply keeps_refl.
  - cbn [for_each]. unfold bind.
    destruct (step false t fs) as [fs1 [u|e]] eqn:S;
      pose proof (render_template_keeps _ _ _ _ S) as K1.
    + intros Hrest. apply keeps_trans with fs1; auto. eapply IH; eauto.
    + now intros [= <- _].
Qed.

(** X12. Without [--force] a run of [render_templates] alters nothing
    that exists: every file keeps its text and its mode and every
    directory stays, whether the run completes or stops with an error. *)
Theorem render_templates_keeps_existing fs fs' r :
  render_templates template_dir output_dir context false fs = (fs', r) ->
  forall l n, fs l = Some n -> fs' l = Some n.
Proof.
  unfold render_templates, bind, get_fs. intros Hrun.
  exact (for_each_keeps _ _ _ _ Hrun).
Qed.

(** An artifact in the way stops a run without [force]. *)
Lemma for_each_blocked t names : forall fs fs',
  fs_wf fs -> In t names -> fs_exists fs (out t) = true ->
  for_each names (step false) fs <> (fs', Ok tt).
Proof.
  induction names as [|h rest IH]; intros fs fs' Hwf Hin He; [destruct Hin|].
  cbn [for_each]. unfold bind.
  destruct (step false h fs) as [fs1 [[]|e]] eqn:S; [|discriminate].
  destruct (string_dec h t) as [->|Hne].
  - exfalso. destruct (render_template_ok _ _ _ _ _ _ _ S) as (template & _ & _ & _ & Hg & _).
    unfold step in S.
    rewrite (render_template_conflict _ _ _ _ _ template Hwf Hg He) in S.
    discriminate.
  - destruct Hin as [Hh|Hin]; [congruence|].
    apply IH; auto.
    + eapply render_template_wf; eauto.
    + eapply fs_exists_grows; eauto. eapply render_template_grows; eauto.
Qed.

(** X13. A run without [--force] that completes has written to pairwise
    distinct output paths: two templates with the same output path, as
    [installer.sh.j2] and [homelab-install.sh.j2] in one directory, stop
    the run at the second one. *)
Theorem render_templates_distinct_outputs fs fs' :
  fs_wf fs ->
  render_templates template_dir output_dir context false fs = (fs', Ok tt) ->
  NoDup (map relative_output (list_templates fs template_dir)).
Proof.
  unfold render_templates, bind, get_fs.
  generalize (list_templates fs template_dir) as names.
  intros names. revert fs. induction names as [|t rest IH]; intros fs Hwf Hrun.
  - constructor.
  - cbn [for_each] in Hrun. unfold bind in Hrun.
    destruct (render_template _ _ _ false t fs) as [fs1 [[]|e]] eqn:S; [|discriminate].
    cbn [map]. constructor.
    + intros Hin. apply in_map_iff in Hin as (t2 & Hsame & Hin2).
      apply (for_each_blocked t2 rest fs1 fs'); auto.
      * eapply render_template_wf; eauto.
      * unfold out. rewrite Hsame.
        pose proof (render_template_writes _ _ _ _ _ _ _ S) as Hfile.
        unfold fs_is_file in Hfile. unfold fs_exists.
        destruct (stat fs1 _); [reflexivity|discriminate].
    + apply (IH fs1); auto. eapply render_template_wf; eauto.
Qed.

End RenderMore.

Section RenderOutcomes.
Context `{External}.
Variables (template_dir output_dir : path) (context : dict).

Let step := render_template template_dir output_dir context.
Let out (template_name : string) : path :=
  joinpath output_dir (relative_output template_name).

(** What an iteration without [force] leaves at its output path. *)
Lemma render_template_new_file template_name fs fs' :
  step false template_name fs = (fs', Ok tt) ->
  exists template fs1 rendered l,
    get_template fs template_dir template_name = Ok template /\
    render fs1 template context = Ok rendered /\
    keeps fs fs1 /\ keeps fs1 fs' /\
    locate fs' (out template_name) = inr l /\
    fs' l = Some (File rendered
                    (if String.eqb (suffix (out template_name)) ".sh" then 493%N
                     else create_mode)).
Proof.
  intros S.
  destruct (render_template_ok _ _ _ _ _ _ _ S)
    as (template & fs1 & rendered & l & Hg & Hm & He & Hr & Hl & _ & Hfs').
  rewrite andb_true_r in He.
  pose proof (fs_exists_false_free _ _ _ He Hl) as Hfree.
  rewrite Hfree in Hfs'.
  assert (K : keeps fs1 fs') by (eapply keeps_fill; eauto).
  exists template, fs1, rendered, l. repeat split; auto.
  - apply adds_dirs_keeps. eapply mkdir_parents_adds; eauto.
  - apply (locate_grows fs1); auto. now apply keeps_grows.
  - rewrite Hfs'. apply fs_update_same.
Qed.

(** X14. After a run without [--force] that completes, the artifact of
    every template is a file holding the text the engine rendered for
    that template, with mode 0o755 when its suffix is [.sh] and the
    creation mode otherwise: no later iteration has touched it. *)
Theorem render_templates_artifacts fs fs' :
  render_templates template_dir output_dir context false fs = (fs', Ok tt) ->
  forall template_name,
    In template_name (list_templates fs template_dir) ->
    exists fs0 fs1 template rendered,
      keeps fs fs0 /\ keeps fs0 fs1 /\ keeps fs1 fs' /\
      get_template fs0 template_dir template_name = Ok template /\
      render fs1 template context = Ok rendered /\
      stat fs' (joinpath output_dir (relative_output template_name))
      = Some (File rendered
                (if String.eqb
                      (suffix (joinpath output_dir (relative_output template_name)))
                      ".sh"
                 then 493%N else create_mode)).
Proof.
  unfold render_templates, bind, get_fs. intros Hrun t Hin.
  apply in_split in Hin as (earlier & later & Hnames).
  rewrite Hnames, for_each_app in Hrun.
  destruct (for_each earlier _ fs) as [fs0 [[]|e]] eqn:Hearlier; [|discriminate].
  cbn [for_each] in Hrun. unfold bind in Hrun.
  destruct (render_template _ _ _ false t fs0) as [fsb [[]|e]] eqn:S; [|discriminate].
  destruct (render_template_new_file _ _ _ S)
    as (template & fs1 & rendered & l & Hg & Hr & K01 & K1b & Hl & Hnode).
  pose proof (for_each_keeps _ _ _ _ _ _ _ Hearlier) as K0.
  pose proof (for_each_keeps _ _ _ _ _ _ _ Hrun) as Kb.
  exists fs0, fs1, template, rendered. repeat split; auto.
  - now apply keeps_trans with fsb.
  - unfold out in *. unfold stat.
    rewrite (locate_grows fsb fs' _ l (keeps_grows _ _ Kb) Hl).
    now apply Kb.
Qed.

(** X15. A regular file standing where the directory of an artifact
    is needed stops the iteration with [mkdir]'s [FileExistsError],
    whose message ends in the [repr] of that directory's path, with or
    without [--force], and the disk stays as it was. *)
Theorem render_template_parent_is_file force template_name fs template content mode :
  get_template fs template_dir template_name = Ok template ->
  stat fs (parent (joinpath output_dir (relative_output template_name)))
    = Some (File content mode) ->
  render_template template_dir output_dir context force template_name fs =
  (fs, Raise (os_exn EEXIST
                (parent (joinpath output_dir (relative_output template_name))))).
Proof.
  intros Hg Hs. rewrite render_template_cases, Hg.
  unfold mkdir_parents. rewrite mkdir_parents_rev_eq, rev_involutive.
  unfold os_mkdir, fs_is_dir, stat in *.
  destruct (locate fs _) as [e|l]; [discriminate|].
  rewrite Hs. reflexivity.
Qed.

(** X16. A directory standing at the output path of an artifact: without
    [--force] the iteration raises the overwrite conflict, with
    [--force] the write raises [IsADirectoryError], whose message ends
    in the [repr] of the output path; the disk stays as it was. *)
Theorem render_template_output_is_dir force template_name fs template rendered :
  fs_wf fs ->
  get_template fs template_dir template_name = Ok template ->
  render fs template context = Ok rendered ->
  fs_is_dir fs (joinpath output_dir (relative_output template_name)) = true ->
  render_template template_dir output_dir context force template_name fs =
  (fs, Raise (if force
              then os_exn EISDIR (joinpath output_dir (relative_output template_name))
              else overwrite_conflict
                     (joinpath output_dir (relative_output template_name)))).
Proof.
  intros Hwf Hg Hr Hd.
  assert (He : fs_exists fs (out template_name) = true).
  { unfold fs_exists, fs_is_dir in *. fold (out template_name) in Hd.
    destruct (stat fs (out template_name)); [reflexivity|discriminate]. }
  destruct force.
  - rewrite render_template_cases, Hg.
    rewrite mkdir_parents_existing by now apply exists_parent_dir.
    rewrite andb_false_r, Hr.
    unfold write_text, fs_is_dir, stat in *.
    destruct (locate fs _) as [e|l]; [discriminate|].
    destruct (fs l) as [[]|]; try discriminate. reflexivity.
  - now apply render_template_conflict with template.
Qed.

(** X17. When the loader lists no name ending in [.j2],
    [render_templates] returns normally and leaves the disk as it was:
    not even the output directory is made. *)
Theorem render_templates_nothing_to_do force fs :
  (forall template_name,
      In template_name (loader_list_templates fs template_dir) ->
      endswith template_name ".j2" = false) ->
  render_templates template_dir output_dir context force fs = (fs, Ok tt).
Proof.
  intros Hnone. unfold render_templates, bind, get_fs, list_templates.
  now rewrite filter_none.
Qed.

End RenderOutcomes.

(** X18. The rename touches the last component only: the output never
    has the name [installer.sh], and it lies in the directory the
    template name gives. *)
Theorem relative_output_name template_name :
  name (relative_output template_name) <> "installer.sh" /\
  parent (relative_output template_name)
  = parent (Path (slice_to_minus3 template_name)).
Proof.
  unfold relative_output.
  destruct (String.eqb (name (Path (slice_to_minus3 template_name))) "installer.sh")
    eqn:E.
  - unfold with_name, name, parent. rewrite last_last, removelast_last.
    split; [discriminate|reflexivity].
  - split; auto. intros Heq. rewrite Heq in E. discriminate.
Qed.

(** ** The whole run *)

Section MainFacts.
Context `{External}.

(** [main] once the three path checks have passed. *)
Lemma main_checked args fs :
  fs_exists fs (config args) = true ->
  override_found fs args = true ->
  fs_exists fs (templates args) = true ->
  main args fs =
  match build_context (config args) (override args) fs with
  | (fs1, Raise e) => (fs1, Raise e)
  | (fs1, Ok context) =>
      match validate_config context with
      | Raise e => (fs1, Raise e)
      | Ok _ =>
          match render_templates (templates args) (output_dir args) context
                  (force args) fs1 with
          | (fs2, Raise e) => (fs2, Raise e)
          | (fs2, Ok _) => (fs2, Ok 0%Z)
          end
      end
  end.
Proof.
  intros Hc Ho Ht. unfold override_found in Ho.
  unfold main, bind, path_exists, ret, lift. rewrite Hc. cbn [negb].
  destruct (override args) as [p|]; cbv beta;
    [rewrite Ho|]; cbn [negb]; rewrite Ht; cbn [negb];
    destruct (build_context _ _ fs) as [fs1 [context|e]]; auto;
    destruct (validate_config context) as [[]|e]; auto.
Qed.

(** A run that fails a path check stops there. *)
Lemma main_unchecked args fs :
  fs_exists fs (config args) && override_found fs args
    && fs_exists fs (templates args) = false ->
  exists msg, main args fs = (fs, Raise (FileNotFoundError msg)).
Proof.
  unfold override_found, main, bind, path_exists, ret, raise.
  destruct (fs_exists fs (config args)); cbn [negb andb]; [|eauto].
  destruct (override args) as [p|].
  - destruct (fs_exists fs p); cbn [negb andb]; [|eauto].
    destruct (fs_exists fs (templates args)); cbn [negb]; [discriminate|eauto].
  - cbn [negb andb].
    destruct (fs_exists fs (templates args)); cbn [negb]; [discriminate|eauto].
Qed.

(** X19. The path checks of [main] come first and in the order base
    configuration, override, templates directory: the first path that
    does not exist is the one reported, whatever the state of the
    later ones, and nothing has been read or written.  No override
    given means no override check; the output directory is not
    checked. *)
Theorem main_missing_path args fs :
  (fs_exists fs (config args) = false ->
   main args fs =
   (fs, Raise (FileNotFoundError
                 ("Base configuration not found: " +++ path_str (config args))))) /\
  (forall p,
      fs_exists fs (config args) = true ->
      override args = Some p ->
      fs_exists fs p = false ->
      main args fs =
      (fs, Raise (FileNotFoundError
                    ("Override configuration not found: " +++ path_str p)))) /\
  (fs_exists fs (config args) = true ->
   (forall p, override args = Some p -> fs_exists fs p = true) ->
   fs_exists fs (templates args) = false ->
   main args fs =
   (fs, Raise (FileNotFoundError
                 ("Templates directory not found: " +++ path_str (templates args))))).
Proof.
  unfold main, bind, path_exists, ret, raise. repeat split.
  - now intros ->.
  - intros p -> -> Hp. cbn [negb]. now rewrite Hp.
  - intros -> Ho Ht. cbn [negb]. destruct (override args) as [p|]; cbn [negb].
    + rewrite (Ho p eq_refl). cbn [negb]. now rewrite Ht.
    + now rewrite Ht.
Qed.

(** X20. [main] returns only 0, and only at the end of a full run: the
    three paths exist, the context was built without touching the disk,
    it holds the sections [app], [installer] and [docker], all
    templates were rendered, and the artifact of each one is a file. *)
Theorem main_returns args fs fs' code :
  main args fs = (fs', Ok code) ->
  code = 0%Z /\
  fs_exists fs (config args) = true /\
  (forall p, override args = Some p -> fs_exists fs p = true) /\
  fs_exists fs (templates args) = true /\
  exists context,
    build_context (config args) (override args) fs = (fs, Ok context) /\
    validate_config context = Ok tt /\
    (forall key, In key ["app"; "installer"; "docker"] -> dict_mem key context = true) /\
    render_templates (templates args) (output_dir args) context (force args) fs
      = (fs', Ok tt) /\
    forall template_name,
      In template_name (list_templates fs (templates args)) ->
      fs_is_file fs' (joinpath (output_dir args) (relative_output template_name)) = true.
Proof.
  intros Hmain.
  destruct (fs_exists fs (config args) && override_found fs args
            && fs_exists fs (templates args)) eqn:Checks.
  2: { destruct (main_unchecked _ _ Checks) as [msg Hfail]. congruence. }
  apply andb_true_iff in Checks as [Checks Ht].
  apply andb_true_iff in Checks as [Hc Ho].
  rewrite (main_checked _ _ Hc Ho Ht) in Hmain.
  destruct (build_context _ _ fs) as [fs1 [context|e]] eqn:B; [|discriminate].
  pose proof (build_context_keeps_disk _ _ _ _ _ B). subst fs1.
  destruct (validate_config context) as [[]|e] eqn:V; [|discriminate].
  destruct (render_templates _ _ context _ fs) as [fs2 [[]|e]] eqn:R; [|discriminate].
  injection Hmain as <- <-. repeat split; auto.
  - intros p Hp. unfold override_found in Ho. now rewrite Hp in Ho.
  - exists context. repeat split; auto.
    + destruct (build_context_inv _ _ _ _ _ B) as [merged ->].
      intros key Hin. rewrite dict_mem_context_of.
      * now apply (proj1 (validate_context_of merged) V).
      * destruct Hin as [<-|[<-|[<-|[]]]]; discriminate.
    + intros t Hin. unfold render_templates, bind, get_fs in R.
      apply (for_each_writes _ _ _ _ _ _ _ R t Hin).
Qed.

(** X21. Validation comes before rendering: when the paths exist and the
    context fails [validate_config], or the context cannot be built,
    [main] raises that error and has made no directory and written no
    file. *)
Theorem main_stops_before_rendering args fs :
  fs_exists fs (config args) = true ->
  (forall p, override args = Some p -> fs_exists fs p = true) ->
  fs_exists fs (templates args) = true ->
  (forall fs1 e,
      build_context (config args) (override args) fs = (fs1, Raise e) ->
      main args fs = (fs, Raise e)) /\
  (forall fs1 context e,
      build_context (config args) (override args) fs = (fs1, Ok context) ->
      validate_config context = Raise e ->
      main args fs = (fs, Raise e)).
Proof.
  intros Hc Ho Ht.
  assert (Ho' : override_found fs args = true).
  { unfold override_found. destruct (override args) as [p|]; auto. }
  rewrite (main_checked _ _ Hc Ho' Ht). split.
  - intros fs1 e B. rewrite B.
    now rewrite (build_context_keeps_disk _ _ _ _ _ B).
  - intros fs1 context e B V. rewrite B, V.
    now rewrite (build_context_keeps_disk _ _ _ _ _ B).
Qed.

(** X22. [main] deletes nothing: whatever it returns or raises, every
    directory is still a directory and every file still a file; and
    without [--force] every file has the text and the mode it had. *)
Theorem main_preserves args fs fs' r :
  main args fs = (fs', r) ->
  grows fs fs' /\
  (force args = false -> forall l n, fs l = Some n -> fs' l = Some n).
Proof.
  intros Hmain.
  destruct (fs_exists fs (config args) && override_found fs args
            && fs_exists fs (templates args)) eqn:Checks.
  2: { destruct (main_unchecked _ _ Checks) as [msg Hfail].
       rewrite Hfail in Hmain. injection Hmain as <- _.
       split; [apply grows_refl|auto]. }
  apply andb_true_iff in Checks as [Checks Ht].
  apply andb_true_iff in Checks as [Hc Ho].
  rewrite (main_checked _ _ Hc Ho Ht) in Hmain.
  destruct (build_context _ _ fs) as [fs1 [context|e]] eqn:B;
    pose proof (build_context_keeps_disk _ _ _ _ _ B); subst fs1.
  2: { injection Hmain as <- _. split; [apply grows_refl|auto]. }
  destruct (validate_config context) as [[]|e].
  2: { injection Hmain as <- _. split; [apply grows_refl|auto]. }
  destruct (render_templates _ _ context _ fs) as [fs2 r2] eqn:R.
  assert (fs' = fs2) by (destruct r2; now injection Hmain as <- _). subst fs2.
  split.
  - unfold render_templates, bind, get_fs in R.
    eapply for_each_grows; eauto.
  - intros Hforce. rewrite Hforce in R.
    unfold render_templates, bind, get_fs in R.
    exact (for_each_keeps _ _ _ _ _ _ _ R).
Qed.

End MainFacts.

(** ** Where a run writes *)

Lemma location_dec (l q : location) : {l = q} + {l <> q}.
Proof. apply (list_eq_dec string_dec). Qed.

Section RenderFrame.
Context `{External}.
Variables (template_dir output_dir : path) (context : dict).

Let step := render_template template_dir output_dir context.
Let out (template_name : string) : path :=
  joinpath output_dir (relative_output template_name).

(** How a location may differ after an iteration: a directory was made
    where there was nothing, or the location is that of the output
    path. *)
Lemma render_template_frame force template_name fs fs' r :
  step force template_name fs = (fs', r) ->
  forall q,
    fs' q = fs q \/
    (fs q = None /\ fs' q = Some Dir) \/
    locate fs' (out template_name) = inr q.
Proof.
  intros S q. pose proof (render_template_grows _ _ _ _ _ _ _ _ S) as G.
  unfold step in S. rewrite render_template_cases in S.
  destruct (get_template fs template_dir template_name) as [template|e];
    [|injection S as <- _; now left].
  destruct (mkdir_parents _ fs) as [fs1 [[]|e]] eqn:M;
    pose proof (mkdir_parents_adds _ _ _ _ M) as A1;
    [|injection S as <- _; destruct (A1 q); auto].
  assert (Hq : fs' q = fs1 q \/ locate fs' (out template_name) = inr q).
  { destruct (fs_exists fs1 _ && negb force); [injection S as <- _; now left|].
    destruct (render fs1 template context) as [rendered|e];
      [|injection S as <- _; now left].
    destruct (write_text _ rendered fs1) as [fs2 [[]|e]] eqn:W.
    2: { apply write_text_raise in W. subst fs2. injection S as <- _. now left. }
    pose proof (write_text_grows _ _ _ _ _ W) as G12.
    destruct (write_text_ok _ _ _ _ W) as (l & Hl & _ & Hfs2).
    assert (G1' : grows fs1 fs').
    { destruct (String.eqb _ ".sh").
      - apply grows_trans with fs2; auto. eapply chmod_grows; eauto.
      - now injection S as <- _. }
    destruct (location_dec l q) as [<-|Hne].
    { right. now apply (locate_grows fs1). }
    left. destruct (String.eqb _ ".sh").
    - destruct (chmod_cases _ _ _ _ _ S)
        as [->|(l' & content & old & Hl' & _ & -> & _)].
      + rewrite Hfs2. now apply fs_update_other.
      + rewrite (locate_grows fs1 fs2 _ l G12 Hl) in Hl'. injection Hl' as <-.
        rewrite fs_update_other by assumption.
        rewrite Hfs2. now apply fs_update_other.
    - injection S as <- _. rewrite Hfs2. now apply fs_update_other. }
  destruct Hq as [Hq|Hq]; [|auto].
  rewrite Hq. destruct (A1 q); auto.
Qed.

Lemma for_each_frame force names : forall fs fs' r,
  for_each names (step force) fs = (fs', r) ->
  forall q,
    fs' q = fs q \/
    (fs q = None /\ fs' q = Some Dir) \/
    exists template_name,
      In template_name names /\ locate fs' (out template_name) = inr q.
Proof.
  induction names as [|t rest IH]; intros fs fs' r Hrun q.
  - injection Hrun as <- _. now left.
  - cbn [for_each] in Hrun. unfold bind in Hrun.
    destruct (step force t fs) as [fs1 [[]|e]] eqn:S.
    + pose proof (for_each_grows _ _ _ _ _ _ _ _ Hrun) as G.
      destruct (render_template_frame _ _ _ _ _ S q) as [H1|[[H1 H1']|H1]].
      * destruct (IH _ _ _ Hrun q) as [H2|[[H2 H2']|(t2 & Hin & H2)]].
        -- left. congruence.
        -- right. left. split; congruence.
        -- right. right. exists t2. split; [now right|assumption].
      * destruct (IH _ _ _ Hrun q) as [H2|[[H2 H2']|(t2 & Hin & H2)]].
        -- right. left. split; congruence.
        -- congruence.
        -- right. right. exists t2. split; [now right|assumption].
      * right. right. exists t. split; [now left|]. now apply (locate_grows fs1).
    + injection Hrun as <- _.
      destruct (render_template_frame _ _ _ _ _ S q) as [H1|[H1|H1]]; auto.
      right. right. exists t. split; [now left|assumption].
Qed.

(** X23. With or without [--force], a run of [render_templates] writes
    at output paths only: a location of the disk that differs after
    the run either was free and holds a new directory, or is the place
    of the output path of one of the listed templates.  Whatever else
    the disk holds is as it was. *)
Theorem render_templates_writes_outputs_only force fs fs' r :
  render_templates template_dir output_dir context force fs = (fs', r) ->
  forall q,
    fs' q = fs q \/
    (fs q = None /\ fs' q = Some Dir) \/
    exists template_name,
      In template_name (list_templates fs template_dir) /\
      locate fs' (joinpath output_dir (relative_output template_name)) = inr q.
Proof.
  unfold render_templates, bind, get_fs. intros Hrun.
  exact (for_each_frame _ _ _ _ _ Hrun).
Qed.

End RenderFrame.

(** * Further instances on the example inputs *)

Lemma deep_merge_idempotent_witness : deep_merge ex_base ex_base = ex_base.
Proof. apply (deep_merge_idempotent ex_base). reflexivity. Defined.

Lemma deep_merge_absorbs_witness :
  deep_merge (deep_merge ex_base ex_override) ex_override
  = deep_merge ex_base ex_override.
Proof. apply (deep_merge_absorbs ex_base ex_override); reflexivity. Defined.

Lemma deep_merge_empty_witness :
  deep_merge ex_override [] = ex_override /\ deep_merge [] ex_override = ex_override.
Proof. apply (deep_merge_empty ex_override). reflexivity. Defined.

(** In the example heap the merge of the dicts at 2 and 4 holds the
    string of the base under [name] and, under [ports], the list object
    at 0 that the override and the dict at 1 hold too. *)
Lemma deep_merge_shares_witness :
  exists h' merged merged_items,
    Heap.deep_merge 3 Heap.ex_heap 2 4 = Ok (h', merged) /\
    nth_error h' merged = Some (Heap.ODict merged_items) /\
    dict_get "name" merged_items = Some (Heap.HStr "demo") /\
    dict_get "ports" merged_items = Some (Heap.HRef 0).
Proof.
  destruct (HeapSharing.deep_merge_shares 3 Heap.ex_heap 2 4 _ _ eq_refl eq_refl)
    as (bi & oi & mi & Hb & Ho & Hm & Hbase & Hover).
  injection Hb as <-. injection Ho as <-.
  eexists _, _, mi. split; [reflexivity|]. split; [exact Hm|]. split.
  - exact (Hbase "name" eq_refl).
  - exact (Hover eq_refl "ports" (Heap.HRef 0) eq_refl eq_refl).
Defined.

(** A file holding a zero loads as the empty mapping. *)
Lemma load_yaml_result_witness :
  (truthy (VDict []) = true \/ VDict [] = VDict []) /\
  exists text mode document,
    @stat (ex_external_scalars []) ex_fs_scalars ["config"; "zero.yaml"]
      = Some (File text mode) /\
    ex_safe_load_scalars text = Ok document /\
    (truthy document = true -> VDict [] = document) /\
    (truthy document = false -> VDict [] = VDict []).
Proof.
  apply (@load_yaml_result (ex_external_scalars []) ex_fs_scalars
           ["config"; "zero.yaml"] ex_fs_scalars (VDict []) eq_refl).
Defined.

(** A path through the file [config/defaults.yaml], and a missing file
    whose name holds an apostrophe: its [repr] is in double quotes. *)
Lemma load_yaml_unreadable_witness :
  @load_yaml (ex_external []) ["config"; "defaults.yaml"; "x.yaml"] ex_fs
  = (ex_fs, Raise (NotADirectoryError
                     "[Errno 20] Not a directory: 'config/defaults.yaml/x.yaml'")) /\
  @load_yaml (ex_external []) ["config"; "it's.yaml"] ex_fs
  = (ex_fs, Raise (FileNotFoundError
                     ("[Errno 2] No such file or directory: "
                      +++ String double_quote
                            ("config/it's.yaml" +++ String double_quote EmptyString)))).
Proof.
  split.
  - apply (proj1 (@load_yaml_unreadable (ex_external []) ex_fs
                    ["config"; "defaults.yaml"; "x.yaml"])).
    exists 2. split; [simpl; lia|reflexivity].
  - apply (proj1 (proj2 (@load_yaml_unreadable (ex_external []) ex_fs
                           ["config"; "it's.yaml"]))); [reflexivity|].
    intros (n & [Hpos Hlt] & Hfile). simpl in Hlt.
    assert (n = 1) as -> by lia. discriminate Hfile.
Defined.

(** A base configuration that is a list. *)
Lemma build_context_non_mapping_witness :
  exists msg,
    @build_context (ex_external_scalars []) ["config"; "list.yaml"] None ex_fs_scalars
    = (ex_fs_scalars, Raise (TypeError msg)).
Proof.
  apply (proj1 (@build_context_non_mapping (ex_external_scalars []) ex_fs_scalars
                  ["config"; "list.yaml"]) (VList [VInt 1])); reflexivity.
Defined.

Lemma build_context_entries_witness :
  exists context,
    @build_context (ex_external []) ["config"; "defaults.yaml"]
      (Some ["config"; "override.yaml"]) ex_fs = (ex_fs, Ok context) /\
    forall k, k <> "config" ->
      dict_get k context =
      match dict_get k ex_config, dict_get k ex_override with
      | Some (VDict b), Some (VDict o) => Some (VDict (deep_merge b o))
      | _, Some v => Some v
      | kept, None => kept
      end.
Proof.
  apply (@build_context_entries (ex_external []) ex_fs ["config"; "defaults.yaml"]
           ["config"; "override.yaml"] ex_config ex_override);
    reflexivity.
Defined.

Lemma build_context_reads_only_witness :
  fst (@build_context (ex_external []) ["config"; "defaults.yaml"]
         (Some ["config"; "missing.yaml"]) ex_fs) = ex_fs.
Proof.
  apply (@build_context_reads_only (ex_external []) ex_fs ["config"; "defaults.yaml"]
           (Some ["config"; "missing.yaml"]) _
           (snd (@build_context (ex_external []) ["config"; "defaults.yaml"]
                   (Some ["config"; "missing.yaml"]) ex_fs))).
  reflexivity.
Defined.

(** The collision file lacks [installer] and [docker]; the override
    supplies [docker] only. *)
Lemma validate_merged_context_witness :
  validate_config (context_of (deep_merge ex_config_collision ex_override)) = Ok tt <->
  forall key, In key ["app"; "installer"; "docker"] ->
              dict_mem key ex_config_collision = true \/ dict_mem key ex_override = true.
Proof.
  apply (@validate_merged_context (ex_external []) ex_fs ["config"; "collision.yaml"]
           ["config"; "override.yaml"] ex_config_collision ex_override);
    reflexivity.
Defined.

(** The artifact [build/b] in the way of [b.j2] is as it was after the
    run that stops there. *)
Lemma render_templates_keeps_existing_witness :
  fst (@render_templates (ex_external ["a.j2"; "b.j2"])
         ["templates"] ["build"] ex_config false ex_fs_conflict)
    ["work"; "build"; "b"] = Some (File "old" 420).
Proof.
  apply (@render_templates_keeps_existing (ex_external ["a.j2"; "b.j2"])
           ["templates"] ["build"] ex_config ex_fs_conflict _
           (snd (@render_templates (ex_external ["a.j2"; "b.j2"])
                   ["templates"] ["build"] ex_config false ex_fs_conflict))
           eq_refl ["work"; "build"; "b"] (File "old" 420) eq_refl).
Defined.

Lemma render_templates_distinct_outputs_witness :
  NoDup (map relative_output
           (@list_templates (ex_external ["a.j2"; "sub/run.sh.j2"]) ex_fs ["templates"])).
Proof.
  apply (@render_templates_distinct_outputs (ex_external ["a.j2"; "sub/run.sh.j2"])
           ["templates"] ["build"] ex_config ex_fs
           (fst (@render_templates (ex_external ["a.j2"; "sub/run.sh.j2"])
                   ["templates"] ["build"] ex_config false ex_fs))).
  - apply ex_fs_wf.
  - reflexivity.
Defined.

(** [build/sub/run.sh] holds the text rendered for [sub/run.sh.j2],
    with mode 0o755. *)
Lemma render_templates_artifacts_witness :
  @stat (ex_external ["sub/run.sh.j2"; "a.j2"])
    (fst (@render_templates (ex_external ["sub/run.sh.j2"; "a.j2"])
            ["templates"] ["build"] ex_config false ex_fs))
    ["build"; "sub"; "run.sh"]
  = Some (File "rendered sub/run.sh.j2" 493).
Proof.
  destruct (@render_templates_artifacts (ex_external ["sub/run.sh.j2"; "a.j2"])
              ["templates"] ["build"] ex_config ex_fs _ eq_refl
              "sub/run.sh.j2" (or_introl eq_refl))
    as (fs0 & fs1 & template & rendered & _ & _ & _ & Hg & Hr & Hstat).
  injection Hg as <-. injection Hr as <-. exact Hstat.
Defined.

(** The file [config/defaults.yaml] given as output directory. *)
Lemma render_template_parent_is_file_witness :
  @render_template (ex_external []) ["templates"] ["config"; "defaults.yaml"]
    ex_config true "a.j2" ex_fs
  = (ex_fs, Raise (FileExistsError "[Errno 17] File exists: 'config/defaults.yaml'")).
Proof.
  apply (@render_template_parent_is_file (ex_external [])
           ["templates"] ["config"; "defaults.yaml"] ex_config true "a.j2" ex_fs
           "a.j2" "demo" 420%N); reflexivity.
Defined.

(** The template [build.j2] rendered into the working directory, where
    [build] is a directory. *)
Lemma render_template_output_is_dir_witness :
  @render_template (ex_external []) ["templates"] [] ex_config true "build.j2" ex_fs
  = (ex_fs, Raise (IsADirectoryError "[Errno 21] Is a directory: 'build'")).
Proof.
  apply (@render_template_output_is_dir (ex_external [])
           ["templates"] [] ex_config true "build.j2" ex_fs "build.j2"
           "rendered build.j2"); try reflexivity.
  apply ex_fs_wf.
Defined.

Lemma render_templates_nothing_to_do_witness :
  @render_templates (ex_external ["README.md"; "notes.j2.txt"])
    ["templates"] ["out"] ex_config false ex_fs = (ex_fs, Ok tt).
Proof.
  apply (@render_templates_nothing_to_do (ex_external ["README.md"; "notes.j2.txt"])
           ["templates"] ["out"] ex_config false ex_fs).
  intros t [<-|[<-|[]]]; reflexivity.
Defined.

(** The override is reported although the templates directory is
    missing too. *)
Lemma main_missing_path_witness :
  @main (ex_external []) ex_args_no_override ex_fs
  = (ex_fs, Raise (FileNotFoundError
                     "Override configuration not found: config/site.yaml")).
Proof.
  apply (proj1 (proj2 (@main_missing_path (ex_external []) ex_args_no_override ex_fs))
           ["config"; "site.yaml"]); reflexivity.
Defined.

(** A full run over two templates. *)
Lemma main_returns_witness :
  @fs_is_file (ex_external ["a.j2"; "installer.sh.j2"])
    (fst (@main (ex_external ["a.j2"; "installer.sh.j2"]) ex_args ex_fs))
    ["build"; "homelab-install.sh"] = true.
Proof.
  destruct (@main_returns (ex_external ["a.j2"; "installer.sh.j2"]) ex_args ex_fs
              _ 0%Z eq_refl)
    as (_ & _ & _ & _ & context & _ & _ & _ & _ & Hfiles).
  apply (Hfiles "installer.sh.j2"). right. left. reflexivity.
Defined.

(** The collision file lacks two sections: nothing is rendered. *)
Lemma main_stops_before_rendering_witness :
  @main (ex_external ["a.j2"]) ex_args_collision ex_fs
  = (ex_fs, Raise (ValueError
                     "Missing required configuration sections: installer, docker")).
Proof.
  apply (proj2 (@main_stops_before_rendering (ex_external ["a.j2"])
                  ex_args_collision ex_fs eq_refl
                  (fun p (Hp : None = Some p) =>
                     match Hp in _ = o return match o with
                                              | None => True
                                              | Some q => _
                                              end
                     with eq_refl => I end)
                  eq_refl)
           ex_fs (context_of ex_config_collision)); reflexivity.
Defined.

(** After the full run the base configuration file is what it was. *)
Lemma main_preserves_witness :
  fst (@main (ex_external ["a.j2"; "installer.sh.j2"]) ex_args ex_fs)
    ["work"; "config"; "defaults.yaml"] = Some (File "demo" 420).
Proof.
  apply (proj2 (@main_preserves (ex_external ["a.j2"; "installer.sh.j2"]) ex_args ex_fs
                  _ (snd (@main (ex_external ["a.j2"; "installer.sh.j2"]) ex_args ex_fs))
                  eq_refl) eq_refl).
  reflexivity.
Defined.

(** With [--force] over the artifact [build/b], the configuration file
    is none of the output paths and is as it was. *)
Lemma render_templates_writes_outputs_only_witness :
  fst (@render_templates (ex_external ["b.j2"])
         ["templates"] ["build"] ex_config true ex_fs_conflict)
    ["work"; "config"; "defaults.yaml"]
  = ex_fs_conflict ["work"; "config"; "defaults.yaml"] \/
  (ex_fs_conflict ["work"; "config"; "defaults.yaml"] = None /\
   fst (@render_templates (ex_external ["b.j2"])
          ["templates"] ["build"] ex_config true ex_fs_conflict)
     ["work"; "config"; "defaults.yaml"] = Some Dir) \/
  exists template_name,
    In template_name (@list_templates (ex_external ["b.j2"]) ex_fs_conflict ["templates"]) /\
    @locate (ex_external ["b.j2"])
      (fst (@render_templates (ex_external ["b.j2"])
              ["templates"] ["build"] ex_config true ex_fs_conflict))
      (joinpath ["build"] (relative_output template_name))
    = inr ["work"; "config"; "defaults.yaml"].
Proof.
  apply (@render_templates_writes_outputs_only (ex_external ["b.j2"])
           ["templates"] ["build"] ex_config true ex_fs_conflict _
           (snd (@render_templates (ex_external ["b.j2"])
                   ["templates"] ["build"] ex_config true ex_fs_conflict))
           eq_refl ["work"; "config"; "defaults.yaml"]).
Defined.
